(** * Optimarket: the bond pricer and its stress test

    A shallow embedding of [backend/services/bond_pricer.py]:
    [price_bond] and [stress_test_bond].

    Numbers.  The program computes in binary64.  Here a float is a real
    number and the arithmetic is exact: the usual idealisation, under which
    overflow and the last-bit error of each operation disappear.  What is
    kept of the two float types the program mixes is the one thing that
    shows in its behaviour: a Python [float] divided by zero raises
    [ZeroDivisionError], a numpy [float64] divided by zero gives inf or nan,
    warns and carries on.

    Arguments are what the signatures annotate: Python floats, and an int
    for [quantity].  Dicts with a fixed set of keys are records.

    Range.  With overflow goes [OverflowError], which Python raises where a
    float power, [int()] of a float or the conversion of an int to a float
    leaves the range of a double.  It is not among the exceptions below:
    the file says what [price_bond] and [stress_test_bond] return and which
    arithmetic failure they meet on numbers within that range, not that a
    call cannot raise.  [exact_in_double] is the range of a [quantity] that
    line 95 converts without loss.

    Beside the pricer the file embeds [gap_analysis] and [run_mvo] of
    [backend/services/mv_optimizer.py], the latter with the draws of
    numpy's seeded generator as a parameter, and the constant tables of
    [bond_pricer.py], [ml/step1_fetch_data.py] and
    [ml/step2_build_features.py].  The rest of the [ml] scripts is network,
    file and pandas code and is left out. *)

From Stdlib Require Import String.
From Stdlib Require Import Reals Zfloor Lra Lia ZArith List Bool.
Import ListNotations.

Open Scope R_scope.

(** ** What a call can do *)

(** The Python exceptions the two functions raise on numbers within the
    range of a double.  [OverflowError], raised beyond it, is left out with
    overflow itself. *)
Inductive exn : Set :=
| ZeroDivisionError
| ValueError
| TypeError
| IndexError.

(** A call returns, raises, or goes on in numpy with an inf or a nan in
    some value.  In the last case a dict or a list does come back, but it
    holds non-numbers; which fields are hit is not modelled. *)
Inductive outcome (A : Type) : Type :=
| Returns (a : A)
| Raises (e : exn)
| NonFinite.

Arguments Returns {A} a.
Arguments Raises {A} e.
Arguments NonFinite {A}.

Definition bind {A B : Type} (m : outcome A) (k : A -> outcome B) : outcome B :=
  match m with
  | Returns a => k a
  | Raises e => Raises e
  | NonFinite => NonFinite
  end.

Notation "x <- m ;; k" := (bind m (fun x => k))
  (at level 61, m at next level, right associativity).

(** A [for] loop that appends one result per element. *)
Fixpoint for_each {A B : Type} (body : A -> outcome B) (l : list A)
  : outcome (list B) :=
  match l with
  | [] => Returns []
  | a :: l' => b <- body a ;; bs <- for_each body l' ;; Returns (b :: bs)
  end.

(** ** Python and numpy numbers *)

(** A number as it sits in a result: a Python [int] or [float], or a numpy
    [float64]. *)
Inductive number : Type :=
| py (r : R)
| np (r : R).

Definition value (a : number) : R :=
  match a with py r => r | np r => r end.

Definition is_np (a : number) : bool :=
  match a with py _ => false | np _ => true end.

(** The type of [a op b]: numpy's as soon as one side is. *)
Definition coerce (a b : number) (r : R) : number :=
  if is_np a || is_np b then np r else py r.

Definition num_sub (a b : number) : number := coerce a b (value a - value b).

(** [a * k] for an int [k], line 95.  Python converts [k] to a double
    first and raises OverflowError when it does not fit; here the product is
    exact for every [k], which is the code for the [k] below. *)
Definition num_mul_int (a : number) (k : Z) : number :=
  coerce a a (value a * IZR k).

(** An int that a double holds exactly. *)
Definition exact_in_double (k : Z) : Prop := (Z.abs k <= 2 ^ 53)%Z.

Definition num_mul (a : number) (k : R) : number :=
  coerce a a (value a * k).

(** [x / y] on Python floats. *)
Definition py_div (x y : R) : outcome R :=
  if Req_dec_T y 0 then Raises ZeroDivisionError else Returns (x / y).

(** [x / y] where one side is a numpy [float64]. *)
Definition np_div (x y : R) : outcome R :=
  if Req_dec_T y 0 then NonFinite else Returns (x / y).

Definition num_div (a b : number) : outcome number :=
  if is_np a || is_np b
  then r <- np_div (value a) (value b) ;; Returns (np r)
  else r <- py_div (value a) (value b) ;; Returns (py r).

(** [int(x)]: truncation towards zero. *)
Definition py_int (x : R) : Z :=
  if Rle_dec 0 x then Zfloor x else Zceil x.

(** Rounding to the nearest integer, ties to the even one. *)
Definition round_half_even (x : R) : Z :=
  let f := Zfloor x in
  if Rlt_dec (x - IZR f) (1 / 2) then f
  else if Rlt_dec (1 / 2) (x - IZR f) then (f + 1)%Z
  else if Z.even f then f else (f + 1)%Z.

(** [round(x, nd)]. *)
Definition round_nd (nd : nat) (x : R) : R :=
  IZR (round_half_even (x * 10 ^ nd)) / 10 ^ nd.

Definition num_round (nd : nat) (a : number) : number :=
  match a with
  | py r => py (round_nd nd r)
  | np r => np (round_nd nd r)
  end.

(** What [x ** y] and the division after it can give on Python floats: a
    float, or a complex number when a negative base meets a fractional
    exponent. *)
Inductive pyval : Type :=
| PyFloat (r : R)
| PyComplex.

(** [x ** y] on Python floats. *)
Definition py_pow (x y : R) : outcome pyval :=
  if Rlt_dec 0 x then Returns (PyFloat (Rpower x y))
  else if Req_dec_T y 0 then Returns (PyFloat 1)
  else if Req_dec_T x 0 then
    if Rlt_dec 0 y then Returns (PyFloat 0) else Raises ZeroDivisionError
  else if Req_dec_T (IZR (Zfloor y)) y
       then Returns (PyFloat (powerRZ x (Zfloor y)))
       else Returns PyComplex.

(** [x / v] for a float [x]; a complex [v] is never zero here. *)
Definition py_truediv (x : R) (v : pyval) : outcome pyval :=
  match v with
  | PyFloat y => r <- py_div x y ;; Returns (PyFloat r)
  | PyComplex => Returns PyComplex
  end.

(** ** numpy arrays, as lists *)

(** [np.arange(lo, hi)]. *)
Definition arange (lo hi : Z) : list Z :=
  map (fun k => (lo + Z.of_nat k)%Z) (seq 0 (Z.to_nat (hi - lo))).

(** [np.full(n, v)]. *)
Definition np_full (n : Z) (v : R) : outcome (list R) :=
  if (n <? 0)%Z then Raises ValueError else Returns (repeat v (Z.to_nat n)).

Fixpoint add_last (a : list R) (v : R) : list R :=
  match a with
  | [] => []
  | [x] => [x + v]
  | x :: a' => x :: add_last a' v
  end.

(** [a[-1] += v]. *)
Definition iadd_last (a : list R) (v : R) : outcome (list R) :=
  match a with
  | [] => Raises IndexError
  | _ => Returns (add_last a v)
  end.

(** [x ** a] for a float [x] and an array of ints. *)
Definition pow_arr (x : R) (a : list Z) : list R := map (powerRZ x) a.

(** [a / b], element by element. *)
Fixpoint div_arr (a b : list R) : outcome (list R) :=
  match a, b with
  | x :: a', y :: b' =>
      q <- np_div x y ;; qs <- div_arr a' b' ;; Returns (q :: qs)
  | _, _ => Returns []
  end.

(** [a * b] for an array of floats and an array of ints. *)
Fixpoint mul_arr (a : list R) (b : list Z) : list R :=
  match a, b with
  | x :: a', k :: b' => x * IZR k :: mul_arr a' b'
  | _, _ => []
  end.

(** [a + 1]. *)
Definition succ_arr (a : list Z) : list Z := map Z.succ a.

(** [a.sum()]. *)
Definition sum_arr (a : list R) : R := fold_right Rplus 0 a.

(** ** The program *)

(** The dict [price_bond] returns. *)
Record PricingResult : Type := mkPricingResult {
  price : number;
  macaulay_duration : number;
  modified_duration : number;
  convexity : number;
  dv01 : number;
  current_yield : number;
  price_to_face : number;
  ytm_pct : number;
  coupon_pct : number
}.

(** The branch [n_periods == 0] of [price_bond]: Python floats only. *)
Definition price_bond_discount (face_value coupon_rate ytm maturity_years : R)
  : outcome PricingResult :=
  pw <- py_pow (1 + ytm) maturity_years ;;
  pr <- py_truediv face_value pw ;;
  match pr with
  | PyComplex => Raises TypeError
  | PyFloat price =>
      mod_d <- py_div maturity_years (1 + ytm) ;;
      dv <- py_div (price * maturity_years) (1 + ytm) ;;
      ptf <- py_div price face_value ;;
      Returns {|
        price := py (round_nd 4 price);
        macaulay_duration := py (round_nd 4 maturity_years);
        modified_duration := py (round_nd 4 mod_d);
        convexity := py 0;
        dv01 := py (round_nd 4 (dv / 10000));
        current_yield := py 0;
        price_to_face := py (round_nd 4 (ptf * 100));
        ytm_pct := py (round_nd 4 (ytm * 100));
        coupon_pct := py (round_nd 4 (coupon_rate * 100))
      |}
  end.

(** The present values of the cash flows, [pv_cash_flows]. *)
Definition pv_cash_flows (face_value semi_coupon semi_ytm : R) (n_periods : Z)
  : outcome (list R) :=
  let periods := arange 1 (n_periods + 1) in
  full <- np_full n_periods semi_coupon ;;
  cash_flows <- iadd_last full face_value ;;
  let discount_factors := pow_arr (1 + semi_ytm) periods in
  div_arr cash_flows discount_factors.

(** The rest of [price_bond]: numpy arrays and [float64]. *)
Definition price_bond_periodic (face_value coupon_rate ytm : R) (n_periods : Z)
  : outcome PricingResult :=
  let semi_coupon := face_value * coupon_rate / 2 in
  let semi_ytm := ytm / 2 in
  let periods := arange 1 (n_periods + 1) in
  pv <- pv_cash_flows face_value semi_coupon semi_ytm n_periods ;;
  let price := sum_arr pv in
  mac2 <- np_div (sum_arr (mul_arr pv periods)) price ;;
  let mac_duration := mac2 / 2 in
  mod_duration <- np_div mac_duration (1 + semi_ytm) ;;
  let convexity_sum := sum_arr (mul_arr (mul_arr pv periods) (succ_arr periods)) in
  convexity <- np_div convexity_sum (price * (1 + semi_ytm) ^ 2 * 4) ;;
  let dv01 := mod_duration * price / 10000 in
  let annual_coupon := face_value * coupon_rate in
  let current_yield :=
    if Rlt_dec 0 price then np (round_nd 4 (annual_coupon / price * 100))
    else py 0 in
  ptf <- np_div price face_value ;;
  Returns {|
    price := np (round_nd 4 price);
    macaulay_duration := np (round_nd 4 mac_duration);
    modified_duration := np (round_nd 4 mod_duration);
    convexity := np (round_nd 4 convexity);
    dv01 := np (round_nd 4 dv01);
    current_yield := current_yield;
    price_to_face := np (round_nd 4 (ptf * 100));
    ytm_pct := py (round_nd 4 (ytm * 100));
    coupon_pct := py (round_nd 4 (coupon_rate * 100))
  |}.

Definition n_periods_of (maturity_years : R) : Z := py_int (maturity_years * 2).

Definition price_bond (face_value coupon_rate ytm maturity_years : R)
  : outcome PricingResult :=
  let n_periods := n_periods_of maturity_years in
  if (n_periods =? 0)%Z
  then price_bond_discount face_value coupon_rate ytm maturity_years
  else price_bond_periodic face_value coupon_rate ytm n_periods.

(** One entry of the list [stress_test_bond] returns. *)
Record StressScenario : Type := mkStressScenario {
  shock_bps : Z;
  shocked_ytm_pct : number;
  scenario_price : number;
  pnl_per_bond : number;
  total_pnl : number;
  pnl_pct : number
}.

Definition shocks : list Z := [-300; -200; -100; -50; 0; 50; 100; 200; 300]%Z.

(** [max(0.0001, ytm + shock_bps / 10000)]. *)
Definition shocked_ytm (ytm : R) (shock : Z) : R :=
  Rmax (1 / 10000) (ytm + IZR shock / 10000).

(** The body of the loop of [stress_test_bond]. *)
Definition stress_scenario
  (face_value coupon_rate ytm maturity_years : R) (quantity : Z)
  (base : PricingResult) (shock : Z) : outcome StressScenario :=
  let s_ytm := shocked_ytm ytm shock in
  shocked_price <- price_bond face_value coupon_rate s_ytm maturity_years ;;
  let pnl := num_sub (price shocked_price) (price base) in
  let total := num_mul_int pnl quantity in
  ratio <- num_div pnl (price base) ;;
  Returns {|
    shock_bps := shock;
    shocked_ytm_pct := py (round_nd 4 (s_ytm * 100));
    scenario_price := price shocked_price;
    pnl_per_bond := num_round 4 pnl;
    total_pnl := num_round 2 total;
    pnl_pct := num_round 4 (num_mul ratio 100)
  |}.

Definition stress_test_bond
  (face_value coupon_rate ytm maturity_years : R) (quantity : Z)
  : outcome (list StressScenario) :=
  base <- price_bond face_value coupon_rate ytm maturity_years ;;
  for_each
    (stress_scenario face_value coupon_rate ytm maturity_years quantity base)
    shocks.

(** ** The discounted cash flow formula, as the specification words it *)

(** Cash flow of period [i] out of [N]: the semi-annual coupon, and the
    principal with the last one. *)
Definition spec_cash_flow (face_value coupon_rate : R) (N i : nat) : R :=
  face_value * coupon_rate / 2 + (if Nat.eqb i N then face_value else 0).

(** [sum_1_to f k] is the sum of [f i] for [i] from 1 to [k]. *)
Fixpoint sum_1_to (f : nat -> R) (k : nat) : R :=
  match k with
  | O => 0
  | S k' => sum_1_to f k' + f k
  end.

(** Price: the sum over the periods of cash flow over discount factor
    [(1 + ytm/2)^i]. *)
Definition spec_price (face_value coupon_rate ytm : R) (N : nat) : R :=
  sum_1_to (fun i => spec_cash_flow face_value coupon_rate N i / (1 + ytm / 2) ^ i) N.

(** Macaulay duration in years: the present values weighted by their
    period, over the price, halved. *)
Definition spec_macaulay (face_value coupon_rate ytm : R) (N : nat) : R :=
  sum_1_to
    (fun i => spec_cash_flow face_value coupon_rate N i / (1 + ytm / 2) ^ i * INR i)
    N
  / spec_price face_value coupon_rate ytm N / 2.

(** Convexity: the present values weighted by [i * (i + 1)], over the
    price times [(1 + ytm/2)^2 * 4]. *)
Definition spec_convexity (face_value coupon_rate ytm : R) (N : nat) : R :=
  sum_1_to
    (fun i => spec_cash_flow face_value coupon_rate N i / (1 + ytm / 2) ^ i
              * INR i * INR (S i))
    N
  / (spec_price face_value coupon_rate ytm N * (1 + ytm / 2) ^ 2 * 4).

(** The dict of the periodic branch, written with the sums above. *)
Definition spec_periodic_result (face_value coupon_rate ytm : R) (N : nat)
  : PricingResult :=
  let p := spec_price face_value coupon_rate ytm N in
  let mac := spec_macaulay face_value coupon_rate ytm N in
  {|
    price := np (round_nd 4 p);
    macaulay_duration := np (round_nd 4 mac);
    modified_duration := np (round_nd 4 (mac / (1 + ytm / 2)));
    convexity := np (round_nd 4 (spec_convexity face_value coupon_rate ytm N));
    dv01 := np (round_nd 4 (mac / (1 + ytm / 2) * p / 10000));
    current_yield := np (round_nd 4 (face_value * coupon_rate / p * 100));
    price_to_face := np (round_nd 4 (p / face_value * 100));
    ytm_pct := py (round_nd 4 (ytm * 100));
    coupon_pct := py (round_nd 4 (coupon_rate * 100))
  |}.

(** A BondSpec as the data model wants it. *)
Definition valid_spec (face_value coupon_rate ytm maturity_years : R) : Prop :=
  0 < face_value /\ 0 <= coupon_rate /\ -1 < ytm /\ 0 < maturity_years.

(** ** Dicts *)

(** A dict with string keys, in insertion order. *)
Definition dict (V : Type) : Type := list (string * V).

(** [d.get(key, default)]. *)
Fixpoint dict_get {V : Type} (d : dict V) (key : string) (default : V) : V :=
  match d with
  | [] => default
  | (k, v) :: d' => if String.eqb k key then v else dict_get d' key default
  end.

(** [d[key] = v]: the value is replaced where the key is, or the pair is
    added at the end. *)
Fixpoint dict_set {V : Type} (d : dict V) (key : string) (v : V) : dict V :=
  match d with
  | [] => [(key, v)]
  | (k, v0) :: d' =>
      if String.eqb k key then (k, v) :: d' else (k, v0) :: dict_set d' key v
  end.

(** A dict display [{k1: v1, k2: v2, ...}]: the pairs are stored from left
    to right, so a key written twice keeps its first place and its last
    value. *)
Definition dict_display {V : Type} (pairs : list (string * V)) : dict V :=
  fold_left (fun d kv => dict_set d (fst kv) (snd kv)) pairs [].

(** ** The presets of [bond_pricer.py] *)

(** One value of [INDIAN_BOND_PRESETS]. *)
Record Preset : Type := mkPreset {
  preset_name : string;
  preset_face_value : R;
  preset_coupon_rate : R;
  preset_ytm : R;
  preset_maturity_years : R
}.

Definition INDIAN_BOND_PRESETS : dict Preset :=
  dict_display
    [("GOI_10Y"%string,
      mkPreset "GOI 7.26% 2033 (10Y Benchmark G-Sec)"
               1000 (726 / 10000) (712 / 10000) 10);
     ("NHAI_PSU"%string,
      mkPreset "NHAI 7.35% 2031 (PSU Bond)"
               1000 (735 / 10000) (748 / 10000) 8);
     ("HDFC_CORP"%string,
      mkPreset "HDFC Bank 8.10% 2028 (Corporate AAA)"
               1000 (810 / 10000) (825 / 10000) 5);
     ("TBILL_91"%string,
      mkPreset "91-Day T-Bill (Zero Coupon)"
               1000 0 (685 / 10000) (1 / 4))].

(** ** The fund tables of [ml/step1_fetch_data.py] and
    [ml/step2_build_features.py] *)

(** [FUND_SCHEMES], as the display writes it: twenty pairs. *)
Definition FUND_SCHEMES_display : list (string * string) :=
  [("119598", "SBI Bluechip Fund");
   ("120503", "HDFC Top 100 Fund");
   ("118989", "Axis Bluechip Fund");
   ("120465", "HDFC Mid-Cap Opportunities");
   ("120503", "Kotak Emerging Equity Fund");
   ("125497", "SBI Small Cap Fund");
   ("120828", "Nippon India Small Cap Fund");
   ("112090", "Parag Parikh Flexi Cap Fund");
   ("118778", "UTI Flexi Cap Fund");
   ("119027", "SBI Magnum Gilt Fund");
   ("119775", "HDFC Gilt Fund");
   ("119247", "HDFC Short Term Debt Fund");
   ("119568", "SBI Liquid Fund");
   ("120594", "HDFC Liquid Fund");
   ("101206", "HDFC Balanced Advantage Fund");
   ("118701", "ICICI Pru Balanced Advantage");
   ("120503", "Axis Long Term Equity Fund");
   ("118769", "Mirae Asset ELSS Fund");
   ("120716", "UTI Nifty 50 Index Fund");
   ("120684", "HDFC Index Fund Nifty 50")]%string.

Definition FUND_SCHEMES : dict string := dict_display FUND_SCHEMES_display.

(** [CATEGORY_MAP]: the category of a fund and its code. *)
Definition CATEGORY_MAP : dict (string * Z) :=
  dict_display
    [("SBI Bluechip Fund", ("Large Cap", 0%Z));
     ("HDFC Top 100 Fund", ("Large Cap", 0%Z));
     ("Axis Bluechip Fund", ("Large Cap", 0%Z));
     ("HDFC Mid-Cap Opportunities", ("Mid Cap", 1%Z));
     ("Kotak Emerging Equity Fund", ("Mid Cap", 1%Z));
     ("SBI Small Cap Fund", ("Small Cap", 2%Z));
     ("Nippon India Small Cap Fund", ("Small Cap", 2%Z));
     ("Parag Parikh Flexi Cap Fund", ("Flexi Cap", 3%Z));
     ("UTI Flexi Cap Fund", ("Flexi Cap", 3%Z));
     ("SBI Magnum Gilt Fund", ("Gilt", 4%Z));
     ("HDFC Gilt Fund", ("Gilt", 4%Z));
     ("HDFC Short Term Debt Fund", ("Short Duration", 5%Z));
     ("SBI Liquid Fund", ("Liquid", 6%Z));
     ("HDFC Liquid Fund", ("Liquid", 6%Z));
     ("HDFC Balanced Advantage Fund", ("Hybrid", 7%Z));
     ("ICICI Pru Balanced Advantage", ("Hybrid", 7%Z));
     ("Axis Long Term Equity Fund", ("ELSS", 8%Z));
     ("Mirae Asset ELSS Fund", ("ELSS", 8%Z));
     ("UTI Nifty 50 Index Fund", ("Index", 9%Z));
     ("HDFC Index Fund Nifty 50", ("Index", 9%Z))]%string.

(** [CATEGORY_MAP.get(fund_name, ("Unknown", 99))]. *)
Definition category_of (fund_name : string) : string * Z :=
  dict_get CATEGORY_MAP fund_name ("Unknown"%string, 99%Z).

(** ** [gap_analysis], of [backend/services/mv_optimizer.py] *)

(** The dict [gap_analysis] stores for one metric. *)
Record GapEntry : Type := mkGapEntry {
  entry_current : R;
  entry_target : R;
  entry_gap : R;
  entry_direction : string;
  entry_on_target : bool
}.

(** The body of the loop of [gap_analysis]. *)
Definition gap_entry (current target : dict R) (metric : string) : GapEntry :=
  let curr_val := dict_get current metric 0 in
  let target_val := dict_get target metric 0 in
  let gap := target_val - curr_val in
  {|
    entry_current := curr_val;
    entry_target := target_val;
    entry_gap := round_nd 2 gap;
    entry_direction :=
      if Rlt_dec 0 gap then "increase"%string
      else if Rlt_dec gap 0 then "decrease"%string
      else "on_target"%string;
    entry_on_target := if Rlt_dec (Rabs gap) (1 / 2) then true else false
  |}.

Definition gap_metrics : list string :=
  ["yield"; "duration"; "volatility"]%string.

Definition gap_analysis (current target : dict R) : dict GapEntry :=
  fold_left
    (fun gaps metric => dict_set gaps metric (gap_entry current target metric))
    gap_metrics [].

(** ** [run_mvo], of [backend/services/mv_optimizer.py] *)

(** [np.random.dirichlet(np.ones(n))] is numpy's generator, seeded with 42
    at each call of [run_mvo]: the weights it hands out are a fixed
    sequence for each [n].  The sequence is a parameter here:
    [dirichlet n k] is the sample of draw number [k]. *)
Definition sampler : Type := nat -> nat -> list R.

(** What a Dirichlet sample is: [n] weights, none negative, of sum 1. *)
Definition simplex (n : nat) (w : list R) : Prop :=
  length w = n /\ Forall (fun x => 0 <= x) w /\ sum_arr w = 1.

Definition matrix : Type := list (list R).

(** [l[i] = v] on a list. *)
Fixpoint list_set {A : Type} (l : list A) (i : nat) (v : A) : list A :=
  match l, i with
  | [], _ => []
  | _ :: l', O => v :: l'
  | x :: l', S i' => x :: list_set l' i' v
  end.

(** [a[i, j] = v]. *)
Definition mat_set (a : matrix) (i j : nat) (v : R) : matrix :=
  list_set a i (list_set (nth i a []) j v).

(** [np.full((n, n), v)]. *)
Definition np_full2 (n : nat) (v : R) : matrix := repeat (repeat v n) n.

(** [np.fill_diagonal(a, v)]. *)
Definition fill_diagonal (a : matrix) (v : R) : matrix :=
  fold_left (fun a i => mat_set a i i v) (seq 0 (length a)) a.

(** [s[:4]]. *)
Definition prefix4 (s : string) : string := substring 0 4 s.

(** The correlation matrix: 0.35, 1.0 on the diagonal, and 0.75 between
    two funds whose names start with the same four characters. *)
Definition correlation (funds : list string) : matrix :=
  let n := length funds in
  let corr := fill_diagonal (np_full2 n (35 / 100)) 1 in
  fold_left
    (fun corr i =>
       fold_left
         (fun corr j =>
            if negb (Nat.eqb i j)
               && String.eqb (prefix4 (nth i funds ""%string))
                             (prefix4 (nth j funds ""%string))
            then mat_set corr i j (75 / 100)
            else corr)
         (seq 0 n) corr)
    (seq 0 n) corr.

(** [np.clip(x, lo, hi)]. *)
Definition clip (x lo hi : R) : R := Rmin (Rmax x lo) hi.

(** [np.clip(np.abs(returns) * 1.2 + 0.08, 0.05, 0.45)]. *)
Definition volatilities (returns : list R) : list R :=
  map (fun r => clip (Rabs r * (12 / 10) + 8 / 100) (5 / 100) (45 / 100)) returns.

Fixpoint zip_with {A B C : Type} (f : A -> B -> C) (a : list A) (b : list B)
  : list C :=
  match a, b with
  | x :: a', y :: b' => f x y :: zip_with f a' b'
  | _, _ => []
  end.

(** [np.outer(u, v)]. *)
Definition outer (u v : list R) : matrix :=
  map (fun x => map (fun y => x * y) v) u.

(** [a * b] on matrices, entry by entry. *)
Definition mat_mul_entries (a b : matrix) : matrix :=
  zip_with (zip_with Rmult) a b.

(** [np.dot(u, v)]. *)
Definition dot (u v : list R) : R := sum_arr (zip_with Rmult u v).

(** [w @ a] for a vector and a square matrix. *)
Definition vec_mat (w : list R) (a : matrix) : list R :=
  map (fun j => dot w (map (fun row => nth j row 0) a)) (seq 0 (length a)).

(** One entry of [results]. *)
Record Portfolio : Type := mkPortfolio {
  weights : list R;
  p_return : R;
  p_vol : R;
  p_sharpe : R
}.

(** [{"Low": 0.12, "Medium": 0.20, "High": 0.35}.get(risk_tolerance, 0.20)]. *)
Definition vol_cap (risk_tolerance : string) : R :=
  dict_get [("Low"%string, 12 / 100); ("Medium"%string, 20 / 100);
            ("High"%string, 35 / 100)]
           risk_tolerance (20 / 100).

(** The portfolio of one draw. *)
Definition simulate (returns : list R) (cov : matrix) (risk_free_rate : R)
           (w : list R) : Portfolio :=
  let port_return := dot w returns in
  let port_vol := sqrt (dot (vec_mat w cov) w) in
  let sharpe :=
    if Rlt_dec 0 port_vol then (port_return - risk_free_rate) / port_vol
    else 0 in
  {| weights := w; p_return := port_return; p_vol := port_vol;
     p_sharpe := sharpe |}.

(** The Monte Carlo loop: the draws whose volatility is within the cap. *)
Definition simulations (dirichlet : sampler) (n : nat) (returns : list R)
           (cov : matrix) (risk_free_rate vol_cap : R) (n_simulations : Z)
  : list Portfolio :=
  fold_left
    (fun results k =>
       let p := simulate returns cov risk_free_rate (dirichlet n k) in
       if Rle_dec (p_vol p) vol_cap then results ++ [p] else results)
    (seq 0 (Z.to_nat n_simulations)) [].

(** The equal-weight portfolio used when no draw is within the cap. *)
Definition relaxed (returns : list R) (risk_free_rate : R) : Portfolio :=
  let n := length returns in
  let mean := sum_arr returns / INR n in
  {| weights := map (fun one => one / INR n) (repeat 1 n);
     p_return := mean;
     p_vol := 15 / 100;
     p_sharpe := (mean - risk_free_rate) / (15 / 100) |}.

Fixpoint max_sharpe_from (best : Portfolio) (rest : list Portfolio) : Portfolio :=
  match rest with
  | [] => best
  | p :: rest' =>
      max_sharpe_from (if Rlt_dec (p_sharpe best) (p_sharpe p) then p else best)
                      rest'
  end.

(** [max(results, key=lambda x: x["sharpe"])]: the first of the largest. *)
Definition max_sharpe (results : list Portfolio) : outcome Portfolio :=
  match results with
  | [] => Raises ValueError
  | p :: rest => Returns (max_sharpe_from p rest)
  end.

(** The dict comprehension over the weights above 0.01. *)
Definition raw_allocation (funds : list string) (w : list R) : dict R :=
  fold_left
    (fun allocation i =>
       if Rlt_dec (1 / 100) (nth i w 0)
       then dict_set allocation (nth i funds ""%string)
                     (round_nd 2 (nth i w 0 * 100))
       else allocation)
    (seq 0 (length funds)) [].

(** [sum(values)]. *)
Definition py_sum (values : list R) : R := fold_left Rplus values 0.

(** [{k: round(v / total * 100, 2) for k, v in allocation.items()}]. *)
Definition normalise (allocation : dict R) (total : R) : outcome (dict R) :=
  for_each
    (fun kv => r <- py_div (snd kv) total ;;
               Returns (fst kv, round_nd 2 (r * 100)))
    allocation.

(** The dict [run_mvo] returns when it has optimised. *)
Record MvoResult : Type := mkMvoResult {
  allocation : dict R;
  expected_return : R;
  expected_vol : R;
  sharpe_ratio : R;
  mvo_risk_free_rate : R;
  mvo_n_simulations : Z;
  mvo_risk_tolerance : string;
  portfolios_evaluated : nat
}.

(** What [run_mvo] returns: the dict with the key "error", or the result. *)
Inductive MvoOutput : Type :=
| MvoError (message : string)
| MvoOk (result : MvoResult).

Definition run_mvo (dirichlet : sampler) (fund_returns : dict R)
           (risk_free_rate : R) (n_simulations : Z) (risk_tolerance : string)
  : outcome MvoOutput :=
  let funds := map fst fund_returns in
  let returns := map (fun f => dict_get fund_returns f 0) funds in
  let n := length funds in
  if (n <? 2)%nat
  then Returns (MvoError "Need at least 2 funds for optimization")
  else
    let corr := correlation funds in
    let vols := volatilities returns in
    let cov := mat_mul_entries (outer vols vols) corr in
    let cap := vol_cap risk_tolerance in
    let results :=
      simulations dirichlet n returns cov risk_free_rate cap n_simulations in
    let results :=
      match results with
      | [] => [relaxed returns risk_free_rate]
      | _ => results
      end in
    best <- max_sharpe results ;;
    let allocation := raw_allocation funds (weights best) in
    let total := py_sum (map snd allocation) in
    allocation <- normalise allocation total ;;
    Returns (MvoOk {|
      allocation := allocation;
      expected_return := round_nd 2 (p_return best * 100);
      expected_vol := round_nd 2 (p_vol best * 100);
      sharpe_ratio := round_nd 4 (p_sharpe best);
      mvo_risk_free_rate := round_nd 2 (risk_free_rate * 100);
      mvo_n_simulations := n_simulations;
      mvo_risk_tolerance := risk_tolerance;
      portfolios_evaluated := length results
    |}).

(** The portfolio [run_mvo] computes from draw number [k]. *)
Definition draw_portfolio (dirichlet : sampler) (fund_returns : dict R)
           (risk_free_rate : R) (k : nat) : Portfolio :=
  let funds := map fst fund_returns in
  let returns := map (fun f => dict_get fund_returns f 0) funds in
  let vols := volatilities returns in
  let cov := mat_mul_entries (outer vols vols) (correlation funds) in
  simulate returns cov risk_free_rate (dirichlet (length funds) k).

(** The list [results] of [run_mvo] when the selection starts. *)
Definition mvo_results (dirichlet : sampler) (fund_returns : dict R)
           (risk_free_rate : R) (n_simulations : Z) (risk_tolerance : string)
  : list Portfolio :=
  let funds := map fst fund_returns in
  let returns := map (fun f => dict_get fund_returns f 0) funds in
  let vols := volatilities returns in
  let cov := mat_mul_entries (outer vols vols) (correlation funds) in
  let results :=
    simulations dirichlet (length funds) returns cov risk_free_rate
                (vol_cap risk_tolerance) n_simulations in
  match results with
  | [] => [relaxed returns risk_free_rate]
  | _ => results
  end.

(** The sampler the examples use: every draw is the equal weights. *)
Definition equal_sampler : sampler := fun n _ => repeat (1 / INR n) n.

Definition example_funds : dict R :=
  [("SBI Bluechip Fund"%string, 12 / 100); ("HDFC Gilt Fund"%string, 7 / 100)].

(** The two dicts of the docstring of [gap_analysis]. *)
Definition example_current : dict R :=
  [("yield"%string, 85 / 10); ("duration"%string, 32 / 10);
   ("volatility"%string, 12)].

Definition example_target : dict R :=
  [("yield"%string, 10); ("duration"%string, 4); ("volatility"%string, 15)].

(** ** Case analysis on real tests *)

Ltac case_reals :=
  repeat (cbn [bind py_truediv]; try unfold py_div; try unfold np_div;
          match goal with
          | |- context [Rlt_dec ?a ?b] => destruct (Rlt_dec a b)
          | |- context [Req_dec_T ?a ?b] => destruct (Req_dec_T a b)
          end; try lra);
  cbn [bind py_truediv].

(** ** Rounding *)

Lemma round_half_even_near (x : R) (z : Z) :
  IZR z - 1 / 2 < x < IZR z + 1 / 2 -> round_half_even x = z.
Proof.
  intros [Hlo Hhi]. unfold round_half_even.
  destruct (Rle_dec (IZR z) x) as [Hge | Hlt].
  - assert (Hf : Zfloor x = z) by (apply Zfloor_eq; lra).
    rewrite Hf. destruct (Rlt_dec (x - IZR z) (1 / 2)); [reflexivity | lra].
  - assert (Hf : Zfloor x = (z - 1)%Z).
    { apply Zfloor_eq. rewrite minus_IZR. lra. }
    rewrite Hf, minus_IZR.
    destruct (Rlt_dec (x - (IZR z - 1)) (1 / 2)); [lra |].
    destruct (Rlt_dec (1 / 2) (x - (IZR z - 1))); [lia | lra].
Qed.

Lemma round_half_even_IZR (z : Z) : round_half_even (IZR z) = z.
Proof. apply round_half_even_near. lra. Qed.

Lemma round_half_even_bounds (x : R) :
  x - 1 / 2 <= IZR (round_half_even x) <= x + 1 / 2.
Proof.
  unfold round_half_even. pose proof (Zfloor_bound x) as [Hlo Hhi].
  destruct (Rlt_dec (x - IZR (Zfloor x)) (1 / 2)); [lra |].
  destruct (Rlt_dec (1 / 2) (x - IZR (Zfloor x))).
  - rewrite plus_IZR. lra.
  - destruct (Z.even (Zfloor x)); [lra | rewrite plus_IZR; lra].
Qed.

Lemma round_half_even_mono (x y : R) :
  x <= y -> (round_half_even x <= round_half_even y)%Z.
Proof.
  intros Hxy.
  pose proof (Zfloor_le x y Hxy) as Hf.
  destruct (Z.eq_dec (Zfloor x) (Zfloor y)) as [Heq | Hne].
  - unfold round_half_even. rewrite Heq.
    destruct (Rlt_dec (x - IZR (Zfloor y)) (1 / 2));
      destruct (Rlt_dec (y - IZR (Zfloor y)) (1 / 2)); try lia; try lra;
      destruct (Rlt_dec (1 / 2) (x - IZR (Zfloor y)));
      destruct (Rlt_dec (1 / 2) (y - IZR (Zfloor y))); try lia; try lra;
      destruct (Z.even (Zfloor y)); lia.
  - assert (Hx : (round_half_even x <= Zfloor x + 1)%Z).
    { unfold round_half_even.
      destruct (Rlt_dec (x - IZR (Zfloor x)) (1 / 2)); [lia |].
      destruct (Rlt_dec (1 / 2) (x - IZR (Zfloor x))); [lia |].
      destruct (Z.even (Zfloor x)); lia. }
    assert (Hy : (Zfloor y <= round_half_even y)%Z).
    { unfold round_half_even.
      destruct (Rlt_dec (y - IZR (Zfloor y)) (1 / 2)); [lia |].
      destruct (Rlt_dec (1 / 2) (y - IZR (Zfloor y))); [lia |].
      destruct (Z.even (Zfloor y)); lia. }
    lia.
Qed.

Lemma pow10_pos (nd : nat) : 0 < 10 ^ nd.
Proof. apply pow_lt. lra. Qed.

Lemma round_nd_near (nd : nat) (x : R) (z : Z) :
  IZR z - 1 / 2 < x * 10 ^ nd < IZR z + 1 / 2 ->
  round_nd nd x = IZR z / 10 ^ nd.
Proof.
  intros H. unfold round_nd. now rewrite (round_half_even_near _ z H).
Qed.

Lemma round_nd_0 (nd : nat) : round_nd nd 0 = 0.
Proof.
  unfold round_nd. rewrite Rmult_0_l, round_half_even_IZR.
  unfold Rdiv. apply Rmult_0_l.
Qed.

Lemma round_nd_mono (nd : nat) (x y : R) :
  x <= y -> round_nd nd x <= round_nd nd y.
Proof.
  intros Hxy. unfold round_nd. pose proof (pow10_pos nd) as Hp.
  apply Rmult_le_compat_r.
  - left. now apply Rinv_0_lt_compat.
  - apply IZR_le, round_half_even_mono.
    apply Rmult_le_compat_r; lra.
Qed.

Lemma round_nd_IZR (nd : nat) (z : Z) : round_nd nd (IZR z) = IZR z.
Proof.
  unfold round_nd. pose proof (pow10_pos nd) as Hp.
  rewrite pow_IZR in *. rewrite <- mult_IZR, round_half_even_IZR, mult_IZR.
  field. lra.
Qed.

Lemma round_nd_ge_1 (nd : nat) (x : R) : 1 <= x -> 1 <= round_nd nd x.
Proof.
  intros H. rewrite <- (round_nd_IZR nd 1). now apply round_nd_mono.
Qed.

(** ** [int] *)

Lemma py_int_nonneg (x : R) : 0 <= x -> py_int x = Zfloor x.
Proof.
  intros H. unfold py_int. destruct (Rle_dec 0 x); [reflexivity | contradiction].
Qed.

Lemma py_int_small (x : R) : -1 < x < 1 -> py_int x = 0%Z.
Proof.
  intros [Hlo Hhi]. unfold py_int. destruct (Rle_dec 0 x).
  - apply Zfloor_eq. lra.
  - apply Zceil_eq. lra.
Qed.

Lemma py_int_neg (x : R) : x <= -1 -> (py_int x < 0)%Z.
Proof.
  intros H. unfold py_int. destruct (Rle_dec 0 x); [lra |].
  pose proof (Zceil_bound x) as [Hlo _].
  apply lt_IZR. lra.
Qed.

Lemma n_periods_discount (m : R) : -1 / 2 < m < 1 / 2 -> n_periods_of m = 0%Z.
Proof. intros H. apply py_int_small. lra. Qed.

Lemma n_periods_floor (m : R) : 0 <= m -> n_periods_of m = Zfloor (m * 2).
Proof. intros H. apply py_int_nonneg. lra. Qed.

Lemma Zfloor_2 : Zfloor (1 * 2) = 2%Z.
Proof. apply Zfloor_eq. lra. Qed.

Lemma Zfloor_20 : Zfloor (10 * 2) = 20%Z.
Proof. apply Zfloor_eq. lra. Qed.

(** ** Arrays *)

Lemma arange_from_1 (N : nat) :
  arange 1 (Z.of_nat N + 1) = map Z.of_nat (seq 1 N).
Proof.
  unfold arange.
  replace (Z.to_nat (Z.of_nat N + 1 - 1)) with N by lia.
  rewrite <- seq_shift, map_map.
  apply map_ext. intros k. lia.
Qed.

Lemma add_last_repeat (v w : R) (k : nat) :
  add_last (repeat v (S k)) w = repeat v k ++ [v + w].
Proof.
  induction k as [| k IH]; [reflexivity |].
  change (repeat v (S (S k))) with (v :: repeat v (S k)).
  change (add_last (v :: repeat v (S k)) w)
    with (v :: add_last (repeat v (S k)) w).
  now rewrite IH.
Qed.

Lemma cash_flows_spec (fv c : R) (k : nat) :
  repeat (fv * c / 2) k ++ [fv * c / 2 + fv]
  = map (spec_cash_flow fv c (S k)) (seq 1 (S k)).
Proof.
  rewrite seq_S, map_app. cbn [map]. f_equal.
  - assert (H : forall (j s : nat), (s + j <= S k)%nat ->
                 repeat (fv * c / 2) j = map (spec_cash_flow fv c (S k)) (seq s j)).
    { induction j as [| j IH]; intros s Hs; [reflexivity |].
      cbn [repeat seq map]. f_equal.
      - unfold spec_cash_flow.
        replace (Nat.eqb s (S k)) with false
          by (symmetry; apply Nat.eqb_neq; lia).
        lra.
      - apply IH. lia. }
    apply H. lia.
  - unfold spec_cash_flow. replace (1 + k)%nat with (S k) by lia.
    now rewrite Nat.eqb_refl.
Qed.

Lemma pow_arr_periods (q : R) (N : nat) :
  pow_arr q (map Z.of_nat (seq 1 N)) = map (fun i => q ^ i) (seq 1 N).
Proof.
  unfold pow_arr. rewrite map_map. apply map_ext.
  intros i. symmetry. apply pow_powerRZ.
Qed.

Lemma div_arr_map (f g : nat -> R) (l : list nat) :
  (forall i, In i l -> g i <> 0) ->
  div_arr (map f l) (map g l) = Returns (map (fun i => f i / g i) l).
Proof.
  induction l as [| i l IH]; intros Hg; [reflexivity |].
  cbn [map div_arr]. unfold np_div.
  destruct (Req_dec_T (g i) 0) as [E | _].
  - exfalso. apply (Hg i); [now left | exact E].
  - cbn [bind]. rewrite IH; [reflexivity |].
    intros j Hj. apply Hg. now right.
Qed.

Lemma sum_arr_app (a b : list R) : sum_arr (a ++ b) = sum_arr a + sum_arr b.
Proof.
  unfold sum_arr. induction a as [| x a IH]; cbn [app fold_right]; [lra |].
  rewrite IH. lra.
Qed.

Lemma sum_arr_seq (f : nat -> R) (N : nat) :
  sum_arr (map f (seq 1 N)) = sum_1_to f N.
Proof.
  induction N as [| N IH]; [reflexivity |].
  rewrite seq_S, map_app, sum_arr_app, IH.
  cbn [map sum_1_to]. unfold sum_arr. cbn [fold_right].
  replace (1 + N)%nat with (S N) by lia. lra.
Qed.

Lemma mul_arr_periods (f : nat -> R) (l : list nat) :
  mul_arr (map f l) (map Z.of_nat l) = map (fun i => f i * INR i) l.
Proof.
  induction l as [| i l IH]; [reflexivity |].
  cbn [map mul_arr]. now rewrite IH, INR_IZR_INZ.
Qed.

(** The array of present values, for at least one period and a discount
    base that is not zero. *)
Lemma pv_cash_flows_spec (fv c sy : R) (N : nat) :
  (1 <= N)%nat -> 1 + sy <> 0 ->
  pv_cash_flows fv (fv * c / 2) sy (Z.of_nat N)
  = Returns (map (fun i => spec_cash_flow fv c N i / (1 + sy) ^ i) (seq 1 N)).
Proof.
  intros HN Hq. destruct N as [| k]; [lia |].
  unfold pv_cash_flows, np_full.
  replace (Z.of_nat (S k) <? 0)%Z with false by (symmetry; apply Z.ltb_ge; lia).
  rewrite Nat2Z.id. cbn [bind].
  change (iadd_last (repeat (fv * c / 2) (S k)) fv)
    with (Returns (A := list R) (add_last (repeat (fv * c / 2) (S k)) fv)).
  cbn [bind].
  rewrite add_last_repeat, cash_flows_spec, arange_from_1, pow_arr_periods.
  apply div_arr_map. intros i _. now apply pow_nonzero.
Qed.

Lemma pv_cash_flows_negative (fv sc sy : R) (n : Z) :
  (n < 0)%Z -> pv_cash_flows fv sc sy n = Raises ValueError.
Proof.
  intros Hn. unfold pv_cash_flows, np_full.
  now replace (n <? 0)%Z with true by (symmetry; apply Z.ltb_lt; lia).
Qed.

(** ** The periodic branch *)

Lemma price_bond_periodic_returns (fv c y : R) (N : nat) :
  (1 <= N)%nat -> 1 + y / 2 <> 0 -> spec_price fv c y N <> 0 -> fv <> 0 ->
  exists r, price_bond_periodic fv c y (Z.of_nat N) = Returns r
            /\ price r = np (round_nd 4 (spec_price fv c y N)).
Proof.
  intros HN Hq Hp Hfv. unfold price_bond_periodic.
  rewrite (pv_cash_flows_spec fv c (y / 2) N HN Hq). cbn [bind].
  rewrite sum_arr_seq. fold (spec_price fv c y N).
  unfold np_div.
  destruct (Req_dec_T (spec_price fv c y N) 0) as [E | _]; [contradiction |].
  cbn [bind].
  destruct (Req_dec_T (1 + y / 2) 0) as [E | _]; [contradiction |].
  cbn [bind].
  destruct (Req_dec_T (spec_price fv c y N * (1 + y / 2) ^ 2 * 4) 0) as [E | _].
  { exfalso. apply Rmult_integral in E. destruct E as [E | E]; [| lra].
    apply Rmult_integral in E. destruct E as [E | E]; [contradiction |].
    now apply (pow_nonzero _ 2) in Hq. }
  cbn [bind].
  destruct (Req_dec_T fv 0) as [E | _]; [contradiction |].
  cbn [bind]. eexists. split; reflexivity.
Qed.

Lemma price_bond_periodic_macaulay (fv c y : R) (N : nat) (r : PricingResult) :
  (1 <= N)%nat -> 1 + y / 2 <> 0 ->
  price_bond_periodic fv c y (Z.of_nat N) = Returns r ->
  macaulay_duration r = np (round_nd 4 (spec_macaulay fv c y N)).
Proof.
  intros HN Hq. unfold price_bond_periodic.
  rewrite (pv_cash_flows_spec fv c (y / 2) N HN Hq). cbn [bind].
  rewrite arange_from_1, mul_arr_periods, !sum_arr_seq.
  fold (spec_price fv c y N). unfold np_div.
  repeat (match goal with
          | |- context [Req_dec_T ?a ?b] => destruct (Req_dec_T a b)
          end; cbn [bind]; try discriminate).
  intros [= <-]. reflexivity.
Qed.

(** ** The discounted sum: sign and monotonicity *)

Lemma sum_1_to_le (f g : nat -> R) (k : nat) :
  (forall i, (1 <= i <= k)%nat -> f i <= g i) ->
  sum_1_to f k <= sum_1_to g k.
Proof.
  induction k as [| k IH]; intros H; cbn [sum_1_to]; [lra |].
  assert (sum_1_to f k <= sum_1_to g k) by (apply IH; intros i Hi; apply H; lia).
  assert (f (S k) <= g (S k)) by (apply H; lia).
  lra.
Qed.

Lemma sum_1_to_nonneg (f : nat -> R) (k : nat) :
  (forall i, (1 <= i <= k)%nat -> 0 <= f i) -> 0 <= sum_1_to f k.
Proof.
  intros H.
  replace 0 with (sum_1_to (fun _ => 0) k).
  - now apply sum_1_to_le.
  - induction k as [| k IH]; cbn [sum_1_to]; [reflexivity |].
    rewrite IH; [lra |]. intros i Hi. apply H. lia.
Qed.

Lemma spec_cash_flow_nonneg (fv c : R) (N i : nat) :
  0 < fv -> 0 <= c -> 0 <= spec_cash_flow fv c N i.
Proof.
  intros Hfv Hc. unfold spec_cash_flow.
  assert (0 <= fv * c) by (apply Rmult_le_pos; lra).
  destruct (Nat.eqb i N); lra.
Qed.

Lemma spec_cash_flow_last (fv c : R) (N : nat) :
  0 < fv -> 0 <= c -> fv <= spec_cash_flow fv c N N.
Proof.
  intros Hfv Hc. unfold spec_cash_flow. rewrite Nat.eqb_refl.
  assert (0 <= fv * c) by (apply Rmult_le_pos; lra). lra.
Qed.

Lemma pv_term_nonneg (a q : R) (i : nat) : 0 <= a -> 0 < q -> 0 <= a / q ^ i.
Proof.
  intros Ha Hq. apply Rmult_le_pos; [exact Ha |].
  left. apply Rinv_0_lt_compat. now apply pow_lt.
Qed.

Lemma pv_term_pos (a q : R) (i : nat) : 0 < a -> 0 < q -> 0 < a / q ^ i.
Proof.
  intros Ha Hq. apply Rmult_lt_0_compat; [exact Ha |].
  apply Rinv_0_lt_compat. now apply pow_lt.
Qed.

Lemma spec_price_pos (fv c y : R) (N : nat) :
  0 < fv -> 0 <= c -> 0 < 1 + y / 2 -> (1 <= N)%nat ->
  0 < spec_price fv c y N.
Proof.
  intros Hfv Hc Hq HN. unfold spec_price. destruct N as [| k]; [lia |].
  cbn [sum_1_to].
  assert (0 <= sum_1_to
            (fun i => spec_cash_flow fv c (S k) i / (1 + y / 2) ^ i) k).
  { apply sum_1_to_nonneg. intros i _.
    apply pv_term_nonneg; [now apply spec_cash_flow_nonneg | exact Hq]. }
  assert (0 < spec_cash_flow fv c (S k) (S k) / (1 + y / 2) ^ S k).
  { apply pv_term_pos; [| exact Hq].
    pose proof (spec_cash_flow_last fv c (S k) Hfv Hc). lra. }
  lra.
Qed.

Lemma pow_lt_base (q1 q2 : R) (i : nat) :
  0 < q1 -> q1 < q2 -> (1 <= i)%nat -> q1 ^ i < q2 ^ i.
Proof.
  intros H1 H12 Hi. destruct i as [| i]; [lia |]. cbn [pow].
  assert (q1 ^ i <= q2 ^ i) by (apply pow_incr; lra).
  assert (0 < q1 ^ i) by now apply pow_lt.
  apply Rle_lt_trans with (q1 * q2 ^ i).
  - apply Rmult_le_compat_l; lra.
  - apply Rmult_lt_compat_r; [lra | exact H12].
Qed.

Lemma pv_term_le (a q1 q2 : R) (i : nat) :
  0 <= a -> 0 < q1 -> q1 <= q2 -> a / q2 ^ i <= a / q1 ^ i.
Proof.
  intros Ha H1 H12. apply Rmult_le_compat_l; [exact Ha |].
  apply Rinv_le_contravar; [now apply pow_lt | apply pow_incr; lra].
Qed.

Lemma pv_term_lt (a q1 q2 : R) (i : nat) :
  0 < a -> 0 < q1 -> q1 < q2 -> (1 <= i)%nat -> a / q2 ^ i < a / q1 ^ i.
Proof.
  intros Ha H1 H12 Hi. apply Rmult_lt_compat_l; [exact Ha |].
  apply Rinv_lt_contravar.
  - apply Rmult_lt_0_compat; apply pow_lt; lra.
  - now apply pow_lt_base.
Qed.

(** The unrounded price falls strictly as the yield rises. *)
Lemma spec_price_decreasing (fv c y1 y2 : R) (N : nat) :
  0 < fv -> 0 <= c -> 0 < 1 + y1 / 2 -> y1 < y2 -> (1 <= N)%nat ->
  spec_price fv c y2 N < spec_price fv c y1 N.
Proof.
  intros Hfv Hc Hq Hy HN. unfold spec_price. destruct N as [| k]; [lia |].
  cbn [sum_1_to].
  assert (sum_1_to (fun i => spec_cash_flow fv c (S k) i / (1 + y2 / 2) ^ i) k
          <= sum_1_to (fun i => spec_cash_flow fv c (S k) i / (1 + y1 / 2) ^ i) k).
  { apply sum_1_to_le. intros i _.
    apply pv_term_le; [now apply spec_cash_flow_nonneg | exact Hq | lra]. }
  assert (spec_cash_flow fv c (S k) (S k) / (1 + y2 / 2) ^ S k
          < spec_cash_flow fv c (S k) (S k) / (1 + y1 / 2) ^ S k).
  { apply pv_term_lt; [| exact Hq | lra | lia].
    pose proof (spec_cash_flow_last fv c (S k) Hfv Hc). lra. }
  lra.
Qed.

(** ** [price_bond] on a BondSpec *)

Lemma price_bond_periodic_case (fv c y m : R) :
  0 < fv -> 0 <= c -> 0 < 1 + y / 2 -> 0 < m -> (1 <= Zfloor (m * 2))%Z ->
  exists r, price_bond fv c y m = Returns r
    /\ price r = np (round_nd 4 (spec_price fv c y (Z.to_nat (Zfloor (m * 2))))).
Proof.
  intros Hfv Hc Hq Hm Hn. unfold price_bond.
  rewrite n_periods_floor by lra.
  replace (Zfloor (m * 2) =? 0)%Z with false by (symmetry; apply Z.eqb_neq; lia).
  assert (HN : (1 <= Z.to_nat (Zfloor (m * 2)))%nat) by lia.
  pose proof (price_bond_periodic_returns fv c y (Z.to_nat (Zfloor (m * 2)))) as H.
  rewrite Z2Nat.id in H by lia.
  apply H; [exact HN | lra | | lra].
  apply Rgt_not_eq, spec_price_pos; [exact Hfv | exact Hc | exact Hq | exact HN].
Qed.

Lemma Rpower_pos (x y : R) : 0 < Rpower x y.
Proof. unfold Rpower. apply exp_pos. Qed.

Lemma Rpower_ge_1 (x y : R) : 1 <= x -> 0 <= y -> 1 <= Rpower x y.
Proof.
  intros Hx Hy. rewrite <- (Rpower_O x) by lra.
  apply Rle_Rpower; assumption.
Qed.

Lemma price_bond_discount_returns (fv c y m : R) :
  0 < 1 + y -> fv <> 0 ->
  price_bond_discount fv c y m
  = Returns {|
      price := py (round_nd 4 (fv / Rpower (1 + y) m));
      macaulay_duration := py (round_nd 4 m);
      modified_duration := py (round_nd 4 (m / (1 + y)));
      convexity := py 0;
      dv01 := py (round_nd 4 (fv / Rpower (1 + y) m * m / (1 + y) / 10000));
      current_yield := py 0;
      price_to_face := py (round_nd 4 (fv / Rpower (1 + y) m / fv * 100));
      ytm_pct := py (round_nd 4 (y * 100));
      coupon_pct := py (round_nd 4 (c * 100))
    |}.
Proof.
  intros Hy Hfv. unfold price_bond_discount, py_pow.
  destruct (Rlt_dec 0 (1 + y)) as [_ | N]; [| contradiction].
  cbn [bind py_truediv]. unfold py_div.
  pose proof (Rpower_pos (1 + y) m) as Hp.
  destruct (Req_dec_T (Rpower (1 + y) m) 0) as [E | _]; [lra |].
  cbn [bind].
  destruct (Req_dec_T (1 + y) 0) as [E | _]; [lra |].
  cbn [bind].
  destruct (Req_dec_T fv 0) as [E | _]; [contradiction |].
  reflexivity.
Qed.

Lemma price_bond_discount_case (fv c y m : R) :
  -1 / 2 < m < 1 / 2 ->
  price_bond fv c y m = price_bond_discount fv c y m.
Proof.
  intros Hm. unfold price_bond. now rewrite (n_periods_discount m Hm).
Qed.

Lemma price_bond_valid_returns (fv c y m : R) :
  valid_spec fv c y m -> exists r, price_bond fv c y m = Returns r.
Proof.
  intros (Hfv & Hc & Hy & Hm).
  destruct (Rlt_dec m (1 / 2)) as [Hlt | Hge].
  - rewrite price_bond_discount_case by lra.
    rewrite price_bond_discount_returns by lra. eexists. reflexivity.
  - destruct (price_bond_periodic_case fv c y m) as (r & Hr & _);
      try lra; [| now exists r].
    apply Zfloor_lub. lra.
Qed.


Lemma not_integer_small (m : R) :
  -1 / 2 < m < 1 / 2 -> m <> 0 -> IZR (Zfloor m) <> m.
Proof.
  intros Hm Hne E.
  assert (Zfloor m = 0%Z).
  { assert (-1 < Zfloor m < 1)%Z; [| lia].
    split; apply lt_IZR; rewrite E; lra. }
  rewrite H in E. lra.
Qed.

(** ** Loops and the numbers of a report *)

Lemma for_each_returns {A B : Type} (body : A -> outcome B) (l : list A)
      (bs : list B) :
  for_each body l = Returns bs ->
  Forall2 (fun a b => body a = Returns b) l bs.
Proof.
  revert bs. induction l as [| a l IH]; intros bs; cbn [for_each].
  - intros [= <-]. constructor.
  - destruct (body a) as [b | e |] eqn:Hb; cbn [bind]; try discriminate.
    destruct (for_each body l) as [bs' | e |]; cbn [bind]; try discriminate.
    intros [= <-]. constructor; [exact Hb | now apply IH].
Qed.

Lemma for_each_total {A B : Type} (body : A -> outcome B) (l : list A) :
  (forall a, In a l -> exists b, body a = Returns b) ->
  exists bs, for_each body l = Returns bs.
Proof.
  induction l as [| a l IH]; intros H; cbn [for_each].
  - now exists [].
  - destruct (H a) as [b Hb]; [now left |].
    destruct IH as [bs Hbs]; [intros a' Ha'; apply H; now right |].
    rewrite Hb, Hbs. cbn [bind]. now exists (b :: bs).
Qed.

Lemma Forall2_in_r {A B : Type} (P : A -> B -> Prop) (l : list A) (l' : list B)
      (b : B) :
  Forall2 P l l' -> In b l' -> exists a, In a l /\ P a b.
Proof.
  induction 1 as [| a b' l l' Hab _ IH]; intros Hin; [contradiction |].
  destruct Hin as [<- | Hin].
  - exists a. split; [now left | exact Hab].
  - destruct (IH Hin) as (a' & Ha' & Hp). exists a'. split; [now right | exact Hp].
Qed.

Lemma shocked_ytm_floor (y : R) (s : Z) : 1 / 10000 <= shocked_ytm y s.
Proof. unfold shocked_ytm. apply Rmax_l. Qed.

Lemma shocked_ytm_zero (y : R) : 1 / 10000 <= y -> shocked_ytm y 0 = y.
Proof.
  intros H. unfold shocked_ytm.
  replace (y + 0 / 10000) with y by lra. now apply Rmax_right.
Qed.

Lemma num_div_returns (a b : number) :
  value b <> 0 -> exists r, num_div a b = Returns r.
Proof.
  intros Hb. unfold num_div, np_div, py_div.
  destruct (is_np a || is_np b); destruct (Req_dec_T (value b) 0);
    try contradiction; cbn [bind]; eexists; reflexivity.
Qed.

Lemma value_coerce (a b : number) (r : R) : value (coerce a b r) = r.
Proof. unfold coerce. now destruct (is_np a || is_np b). Qed.

Lemma value_num_sub (a b : number) : value (num_sub a b) = value a - value b.
Proof. apply value_coerce. Qed.

Lemma value_num_round (nd : nat) (a : number) :
  value (num_round nd a) = round_nd nd (value a).
Proof. now destruct a. Qed.

Lemma num_div_value (a b r : number) :
  num_div a b = Returns r -> value b <> 0 /\ value r = value a / value b.
Proof.
  unfold num_div, np_div, py_div.
  destruct (is_np a || is_np b); destruct (Req_dec_T (value b) 0);
    cbn [bind]; try discriminate; intros [= <-]; now split.
Qed.

Lemma report_shape (rep : list StressScenario) :
  map shock_bps rep = shocks ->
  exists a b c d e f g h i,
    rep = [a; b; c; d; e; f; g; h; i]
    /\ shock_bps a = (-300)%Z /\ shock_bps b = (-200)%Z
    /\ shock_bps c = (-100)%Z /\ shock_bps d = (-50)%Z
    /\ shock_bps e = 0%Z /\ shock_bps f = 50%Z
    /\ shock_bps g = 100%Z /\ shock_bps h = 200%Z /\ shock_bps i = 300%Z.
Proof.
  unfold shocks. intros H.
  destruct rep as [| a [| b [| c [| d [| e [| f [| g [| h [| i [| j rep]]]]]]]]]];
    try discriminate.
  injection H as Ha Hb Hc Hd He Hf Hg Hh Hi.
  exists a, b, c, d, e, f, g, h, i. repeat split; assumption.
Qed.

(** ** The stress loop *)

Section Stress.

(** One call of [stress_test_bond]: face value, coupon rate, yield,
    years to maturity and quantity. *)
Variables (fv c y m : R) (q : Z).

(** What one turn of the loop has done when it comes back. *)
Lemma stress_scenario_returns (base : PricingResult)
      (s : Z) (sc : StressScenario) :
  stress_scenario fv c y m q base s = Returns sc ->
  exists sp ratio,
    price_bond fv c (shocked_ytm y s) m = Returns sp
    /\ num_div (num_sub (price sp) (price base)) (price base) = Returns ratio
    /\ sc = {|
         shock_bps := s;
         shocked_ytm_pct := py (round_nd 4 (shocked_ytm y s * 100));
         scenario_price := price sp;
         pnl_per_bond := num_round 4 (num_sub (price sp) (price base));
         total_pnl :=
           num_round 2 (num_mul_int (num_sub (price sp) (price base)) q);
         pnl_pct := num_round 4 (num_mul ratio 100)
       |}.
Proof.
  unfold stress_scenario.
  destruct (price_bond fv c (shocked_ytm y s) m) as [sp | e |];
    cbn [bind]; try discriminate.
  destruct (num_div _ (price base)) as [ratio | e |] eqn:Hd;
    cbn [bind]; try discriminate.
  intros [= <-]. exists sp, ratio. repeat split. exact Hd.
Qed.

Lemma stress_test_bond_inv (rep : list StressScenario) :
  stress_test_bond fv c y m q = Returns rep ->
  exists base,
    price_bond fv c y m = Returns base
    /\ Forall2 (fun s sc => stress_scenario fv c y m q base s = Returns sc)
               shocks rep.
Proof.
  unfold stress_test_bond.
  destruct (price_bond fv c y m) as [base | e |]; cbn [bind]; try discriminate.
  intros H. exists base. split; [reflexivity | now apply for_each_returns].
Qed.

Lemma stress_test_bond_shocks (rep : list StressScenario) :
  stress_test_bond fv c y m q = Returns rep -> map shock_bps rep = shocks.
Proof.
  intros H. destruct (stress_test_bond_inv _ H) as (base & _ & HF).
  clear H. induction HF as [| s sc l l' Hs _ IH]; [reflexivity |].
  cbn [map]. f_equal; [| exact IH].
  destruct (stress_scenario_returns _ _ _ Hs) as (sp & ratio & _ & _ & ->).
  reflexivity.
Qed.

(** On a BondSpec whose price does not round to zero the whole report
    comes back. *)
Lemma stress_test_bond_returns (base : PricingResult) :
  valid_spec fv c y m ->
  price_bond fv c y m = Returns base -> value (price base) <> 0 ->
  exists rep, stress_test_bond fv c y m q = Returns rep.
Proof.
  intros (Hfv & Hc & Hy & Hm) Hbase Hp. unfold stress_test_bond.
  rewrite Hbase. cbn [bind]. apply for_each_total. intros s _.
  unfold stress_scenario.
  destruct (price_bond_valid_returns fv c (shocked_ytm y s) m) as [sp Hsp].
  { pose proof (shocked_ytm_floor y s). repeat split; lra. }
  rewrite Hsp. cbn [bind].
  destruct (num_div_returns (num_sub (price sp) (price base)) (price base) Hp)
    as [ratio Hr].
  rewrite Hr. cbn [bind]. eexists. reflexivity.
Qed.

(** A scenario of a report, read back: the shock it was made from, the
    base result and the repriced one. *)
Lemma stress_report_entry (rep : list StressScenario)
      (sc : StressScenario) :
  stress_test_bond fv c y m q = Returns rep -> In sc rep ->
  exists base sp ratio,
    In (shock_bps sc) shocks
    /\ price_bond fv c y m = Returns base
    /\ price_bond fv c (shocked_ytm y (shock_bps sc)) m = Returns sp
    /\ num_div (num_sub (price sp) (price base)) (price base) = Returns ratio
    /\ shocked_ytm_pct sc = py (round_nd 4 (shocked_ytm y (shock_bps sc) * 100))
    /\ scenario_price sc = price sp
    /\ pnl_per_bond sc = num_round 4 (num_sub (price sp) (price base))
    /\ total_pnl sc
       = num_round 2 (num_mul_int (num_sub (price sp) (price base)) q)
    /\ pnl_pct sc = num_round 4 (num_mul ratio 100).
Proof.
  intros H Hin.
  destruct (stress_test_bond_inv _ H) as (base & Hbase & HF).
  destruct (Forall2_in_r _ _ _ _ HF Hin) as (s & Hs & Hsc).
  destruct (stress_scenario_returns _ _ _ Hsc)
    as (sp & ratio & Hsp & Hr & ->).
  exists base, sp, ratio. cbn. repeat split; assumption.
Qed.

End Stress.

(** ** A par bond

    One year, face 1000, a 5% coupon and a 5% yield: the example the
    claims below are tried on. *)

Lemma par_bond_valid : valid_spec 1000 (5 / 100) (5 / 100) 1.
Proof. unfold valid_spec. lra. Qed.

Lemma par_bond_report (q : Z) :
  exists rep, stress_test_bond 1000 (5 / 100) (5 / 100) 1 q = Returns rep.
Proof.
  destruct (price_bond_periodic_case 1000 (5 / 100) (5 / 100) 1)
    as (base & Hbase & Hp); try lra; [rewrite Zfloor_2; lia |].
  apply (stress_test_bond_returns _ _ _ _ q base par_bond_valid Hbase).
  rewrite Hp, Zfloor_2. cbn [value].
  assert (1 <= round_nd 4 (spec_price 1000 (5 / 100) (5 / 100) (Z.to_nat 2))).
  { apply round_nd_ge_1. change (Z.to_nat 2) with 2%nat.
    unfold spec_price, spec_cash_flow. cbn [sum_1_to Nat.eqb]. lra. }
  lra.
Qed.

(** ** The claims *)

(** C1. For a BondSpec with face_value > 0, coupon_rate >= 0, ytm > -1,
    maturity_years > 0 and n_periods = floor(maturity_years * 2) >= 1,
    [price_bond] returns, and its price is the sum over i = 1..n_periods of
    CF_i / (1 + ytm/2)^i, rounded to 4 decimals, where CF_i is
    face_value * coupon_rate / 2 and the last one adds face_value. *)
Theorem price_bond_is_discounted_sum (fv c y m : R) :
  0 < fv -> 0 <= c -> -1 < y -> 0 < m -> (1 <= Zfloor (m * 2))%Z ->
  n_periods_of m = Zfloor (m * 2)
  /\ exists r,
       price_bond fv c y m = Returns r
       /\ price r
          = np (round_nd 4 (spec_price fv c y (Z.to_nat (Zfloor (m * 2))))).
Proof.
  intros Hfv Hc Hy Hm Hn. split.
  - apply n_periods_floor. lra.
  - apply price_bond_periodic_case; try assumption. lra.
Qed.

Lemma price_bond_is_discounted_sum_witness :
  n_periods_of 10 = Zfloor (10 * 2)
  /\ exists r,
       price_bond 1000 (726 / 10000) (712 / 10000) 10 = Returns r
       /\ price r
          = np (round_nd 4 (spec_price 1000 (726 / 10000) (712 / 10000)
                              (Z.to_nat (Zfloor (10 * 2))))).
Proof.
  apply (price_bond_is_discounted_sum 1000 (726 / 10000) (712 / 10000) 10);
    try lra.
  rewrite Zfloor_20. lia.
Defined.

(** C2, amended.  For a BondSpec with 0 < maturity_years < 0.5,
    n_periods is 0 and [price_bond] returns the discount branch's figures,
    each rounded to 4 decimals: price = face_value / (1 + ytm)^maturity_years,
    macaulay_duration = maturity_years,
    modified_duration = maturity_years / (1 + ytm), convexity = 0,
    dv01 = (unrounded price) * maturity_years / (1 + ytm) / 10000 and
    current_yield = 0. *)
Theorem discount_branch_formulas (fv c y m : R) :
  0 < fv -> 0 <= c -> -1 < y -> 0 < m < 1 / 2 ->
  n_periods_of m = 0%Z
  /\ exists r,
       price_bond fv c y m = Returns r
       /\ price r = py (round_nd 4 (fv / Rpower (1 + y) m))
       /\ macaulay_duration r = py (round_nd 4 m)
       /\ modified_duration r = py (round_nd 4 (m / (1 + y)))
       /\ convexity r = py 0
       /\ dv01 r
          = py (round_nd 4 (fv / Rpower (1 + y) m * m / (1 + y) / 10000))
       /\ current_yield r = py 0.
Proof.
  intros Hfv Hc Hy Hm. split; [apply n_periods_discount; lra |].
  rewrite price_bond_discount_case by lra.
  rewrite price_bond_discount_returns by lra.
  eexists. split; [reflexivity |]. cbn. tauto.
Qed.

Lemma discount_branch_formulas_witness :
  exists r,
    price_bond 1000 0 (685 / 10000) (1 / 4) = Returns r
    /\ price r = py (round_nd 4 (1000 / Rpower (1 + 685 / 10000) (1 / 4)))
    /\ macaulay_duration r = py (round_nd 4 (1 / 4))
    /\ convexity r = py 0.
Proof.
  destruct (discount_branch_formulas 1000 0 (685 / 10000) (1 / 4))
    as (_ & r & Hr & Hp & Hmac & _ & Hcv & _); try lra.
  exists r. repeat split; assumption.
Defined.

(** C2 as stated fails on the fields that are rounded.  At
    maturity_years = 3/64 = 0.046875 the macaulay_duration returned is
    0.0469. *)
Lemma discount_branch_formulas_counterexample :
  exists r,
    valid_spec 1000 0 (5 / 100) (3 / 64) /\ 0 < 3 / 64 < 1 / 2
    /\ price_bond 1000 0 (5 / 100) (3 / 64) = Returns r
    /\ value (macaulay_duration r) = 469 / 10000
    /\ value (macaulay_duration r) <> 3 / 64.
Proof.
  assert (Hr : round_nd 4 (3 / 64) = 469 / 10000).
  { rewrite (round_nd_near 4 _ 469); lra. }
  rewrite price_bond_discount_case by lra.
  rewrite price_bond_discount_returns by lra.
  eexists. split; [unfold valid_spec; lra |]. split; [lra |].
  split; [reflexivity |]. cbn [macaulay_duration value]. rewrite Hr. lra.
Qed.

(** C3, amended.  When the yield is at least 0.0001 and a report comes
    back, its scenario with shock_bps = 0 has the base result's price and
    a pnl_per_bond of 0. *)
Theorem stress_zero_shock_reprices_base (fv c y m : R) (q : Z)
        (rep : list StressScenario) (base : PricingResult) :
  1 / 10000 <= y ->
  price_bond fv c y m = Returns base ->
  stress_test_bond fv c y m q = Returns rep ->
  (exists sc, In sc rep /\ shock_bps sc = 0%Z)
  /\ forall sc, In sc rep -> shock_bps sc = 0%Z ->
       scenario_price sc = price base /\ value (pnl_per_bond sc) = 0.
Proof.
  intros Hy Hbase H. split.
  - destruct (report_shape rep (stress_test_bond_shocks _ _ _ _ _ _ H))
      as (a & b & c0 & d & e & f & g & h & i & -> & _ & _ & _ & _ & He & _).
    exists e. split; [cbn [In]; tauto | exact He].
  - intros sc Hin Hs.
    destruct (stress_report_entry _ _ _ _ _ _ _ H Hin)
      as (base' & sp & ratio & _ & Hbase' & Hsp & _ & _ & Hprice & Hpnl & _).
    rewrite Hs, (shocked_ytm_zero y Hy), Hbase in Hsp.
    rewrite Hbase in Hbase'.
    injection Hsp as <-. injection Hbase' as <-.
    split; [exact Hprice |].
    rewrite Hpnl, value_num_round, value_num_sub, Rminus_diag.
    apply round_nd_0.
Qed.

Lemma stress_zero_shock_reprices_base_witness :
  exists rep base sc,
    1 / 10000 <= 5 / 100
    /\ price_bond 1000 (5 / 100) (5 / 100) 1 = Returns base
    /\ stress_test_bond 1000 (5 / 100) (5 / 100) 1 1 = Returns rep
    /\ In sc rep /\ shock_bps sc = 0%Z
    /\ scenario_price sc = price base /\ value (pnl_per_bond sc) = 0.
Proof.
  destruct (par_bond_report 1) as [rep H].
  destruct (stress_test_bond_inv _ _ _ _ _ _ H) as (base & Hbase & _).
  assert (Hy : 1 / 10000 <= 5 / 100) by lra.
  destruct (stress_zero_shock_reprices_base _ _ _ _ _ rep base Hy Hbase H)
    as ((sc & Hin & Hs) & Hall).
  exists rep, base, sc. repeat split; try assumption; now apply Hall.
Defined.

(** C3 as stated fails below the floor.  At ytm = 0, a valid yield, the
    base price of a one-year 5% bond is 1050.0000, but the shock of 0 is
    repriced at max(0.0001, 0) = 0.0001 and comes out under 1049.9. *)
Lemma stress_zero_shock_counterexample :
  exists rep base sc,
    valid_spec 1000 (5 / 100) 0 1
    /\ price_bond 1000 (5 / 100) 0 1 = Returns base
    /\ stress_test_bond 1000 (5 / 100) 0 1 1 = Returns rep
    /\ In sc rep /\ shock_bps sc = 0%Z
    /\ value (scenario_price sc) < value (price base)
    /\ value (pnl_per_bond sc) < 0.
Proof.
  assert (Hv : valid_spec 1000 (5 / 100) 0 1) by (unfold valid_spec; lra).
  destruct (price_bond_periodic_case 1000 (5 / 100) 0 1)
    as (base & Hbase & Hp); try lra; [rewrite Zfloor_2; lia |].
  rewrite Zfloor_2 in Hp. change (Z.to_nat 2) with 2%nat in Hp.
  assert (Hb : value (price base) = 1050).
  { rewrite Hp. cbn [value].
    replace (spec_price 1000 (5 / 100) 0 2) with (IZR 1050).
    - apply round_nd_IZR.
    - unfold spec_price, spec_cash_flow. cbn [sum_1_to Nat.eqb]. lra. }
  destruct (stress_test_bond_returns _ _ _ _ 1%Z base Hv Hbase) as [rep H];
    [lra |].
  destruct (report_shape rep (stress_test_bond_shocks _ _ _ _ _ _ H))
    as (a & b & c0 & d & e & f & g & h & i & -> & _ & _ & _ & _ & He & _).
  assert (Hin : In e [a; b; c0; d; e; f; g; h; i]) by (cbn [In]; tauto).
  destruct (stress_report_entry _ _ _ _ _ _ _ H Hin)
    as (base' & sp & ratio & _ & Hbase' & Hsp & _ & _ & Hprice & Hpnl & _).
  rewrite Hbase in Hbase'. injection Hbase' as <-.
  assert (Hs : shocked_ytm 0 (shock_bps e) = 1 / 10000).
  { rewrite He. unfold shocked_ytm. apply Rmax_left. lra. }
  rewrite Hs in Hsp.
  destruct (price_bond_periodic_case 1000 (5 / 100) (1 / 10000) 1)
    as (sp' & Hsp' & Hp'); try lra; [rewrite Zfloor_2; lia |].
  rewrite Hsp in Hsp'. injection Hsp' as <-.
  rewrite Zfloor_2 in Hp'. change (Z.to_nat 2) with 2%nat in Hp'.
  assert (Hx : value (price sp) <= 10499 / 10).
  { rewrite Hp'. cbn [value].
    replace (10499 / 10) with (round_nd 4 (10499 / 10)).
    - apply round_nd_mono.
      unfold spec_price, spec_cash_flow. cbn [sum_1_to Nat.eqb]. lra.
    - rewrite (round_nd_near 4 _ 10499000); lra. }
  exists [a; b; c0; d; e; f; g; h; i], base, e.
  repeat split; try assumption; try (unfold valid_spec in Hv; lra).
  - rewrite Hprice. lra.
  - rewrite Hpnl, value_num_round, value_num_sub.
    apply Rle_lt_trans with (round_nd 4 (-1 / 10)).
    + apply round_nd_mono. lra.
    + rewrite (round_nd_near 4 _ (-1000)); lra.
Qed.

(** C4. In every scenario of a returned report the yield the bond was
    repriced at is max(0.0001, ytm + shock_bps/10000): the scenario's price
    is the price at that yield, the yield shown is that yield in percent,
    and it is at least 0.0001.  At ytm = 0.0050 and a shock of -300 it is
    0.0001. *)
Theorem stress_shocked_yield_floored (fv c y m : R) (q : Z)
        (rep : list StressScenario) (sc : StressScenario) :
  stress_test_bond fv c y m q = Returns rep -> In sc rep ->
  let s_ytm := Rmax (1 / 10000) (y + IZR (shock_bps sc) / 10000) in
  (exists sp, price_bond fv c s_ytm m = Returns sp
              /\ scenario_price sc = price sp)
  /\ shocked_ytm_pct sc = py (round_nd 4 (s_ytm * 100))
  /\ 1 / 10000 <= s_ytm
  /\ shocked_ytm (50 / 10000) (-300) = 1 / 10000.
Proof.
  intros H Hin s_ytm.
  destruct (stress_report_entry _ _ _ _ _ _ _ H Hin)
    as (base & sp & ratio & _ & _ & Hsp & _ & Hpct & Hprice & _).
  repeat split.
  - exists sp. split; assumption.
  - exact Hpct.
  - apply Rmax_l.
  - unfold shocked_ytm. apply Rmax_left. lra.
Qed.

Lemma stress_shocked_yield_floored_witness :
  exists rep sc,
    stress_test_bond 1000 (5 / 100) (5 / 100) 1 1 = Returns rep /\ In sc rep
    /\ 1 / 10000 <= Rmax (1 / 10000) (5 / 100 + IZR (shock_bps sc) / 10000).
Proof.
  destruct (par_bond_report 1) as [rep H].
  destruct (report_shape rep (stress_test_bond_shocks _ _ _ _ _ _ H))
    as (a & b & c & d & e & f & g & h & i & -> & _).
  exists [a; b; c; d; e; f; g; h; i], a.
  split; [exact H |]. split; [now left |].
  apply (stress_shocked_yield_floored _ _ _ _ _ _ a H (or_introl eq_refl)).
Defined.

(** C5, amended.  [price_bond] has no validation step and no validation
    error.  On an input with face_value <= 0, coupon_rate < 0,
    maturity_years <= 0 or ytm <= -1 it fails only where its arithmetic
    does, and otherwise returns a PricingResult:
    - -1000000 <= maturity_years <= -0.5: ValueError (an array of negative
      length);
    - the discount branch, -0.5 < maturity_years < 0.5: ZeroDivisionError
      at ytm = -1, TypeError (a complex price) at ytm < -1 unless
      maturity_years = 0, ZeroDivisionError at face_value = 0, and a
      PricingResult in every other case;
    - maturity_years >= 0.5 and ytm > -2: a PricingResult with the rounded
      discounted sum for its price when face_value and the discounted sum
      are not zero; a negative face_value or coupon_rate and a ytm in
      (-2, -1] are priced like any other.
    Nothing is said of which exceptions cannot occur: OverflowError is
    outside the embedding. *)
Theorem price_bond_does_not_validate (fv c y m : R) :
  fv <= 0 \/ c < 0 \/ m <= 0 \/ y <= -1 ->
  (-1000000 <= m <= -1 / 2 -> price_bond fv c y m = Raises ValueError)
  /\ (-1 / 2 < m < 1 / 2 ->
      (y = -1 -> price_bond fv c y m = Raises ZeroDivisionError)
      /\ (y < -1 -> m <> 0 -> price_bond fv c y m = Raises TypeError)
      /\ (-1 < y \/ (y < -1 /\ m = 0) -> fv = 0 ->
          price_bond fv c y m = Raises ZeroDivisionError)
      /\ (-1 < y \/ (y < -1 /\ m = 0) -> fv <> 0 ->
          exists r, price_bond fv c y m = Returns r))
  /\ (1 / 2 <= m -> -2 < y -> fv <> 0 ->
      spec_price fv c y (Z.to_nat (Zfloor (m * 2))) <> 0 ->
      exists r,
        price_bond fv c y m = Returns r
        /\ price r
           = np (round_nd 4 (spec_price fv c y (Z.to_nat (Zfloor (m * 2)))))).
Proof.
  intros _. split; [| split].
  - intros [_ Hm]. unfold price_bond.
    assert (Hn : (n_periods_of m < 0)%Z) by (apply py_int_neg; lra).
    replace (n_periods_of m =? 0)%Z with false
      by (symmetry; apply Z.eqb_neq; lia).
    unfold price_bond_periodic. now rewrite pv_cash_flows_negative.
  - intros Hm. rewrite price_bond_discount_case by exact Hm.
    unfold price_bond_discount, py_pow, py_div.
    split; [| split; [| split]].
    + intros ->. case_reals; reflexivity.
    + intros Hy Hne.
      destruct (Rlt_dec 0 (1 + y)); [lra |].
      destruct (Req_dec_T m 0); [contradiction |].
      destruct (Req_dec_T (1 + y) 0); [lra |].
      destruct (Req_dec_T (IZR (Zfloor m)) m) as [E | _].
      * now apply not_integer_small in E.
      * reflexivity.
    + intros Hy ->. destruct Hy as [Hy | [Hy ->]].
      * pose proof (Rpower_pos (1 + y) m). case_reals; reflexivity.
      * case_reals; reflexivity.
    + intros Hy Hfv. destruct Hy as [Hy | [Hy ->]].
      * pose proof (Rpower_pos (1 + y) m). case_reals; eexists; reflexivity.
      * case_reals; eexists; reflexivity.
  - intros Hm Hy Hfv Hp.
    assert (Hn : (1 <= Zfloor (m * 2))%Z) by (apply Zfloor_lub; lra).
    assert (Hnp : n_periods_of m = Zfloor (m * 2)) by (apply n_periods_floor; lra).
    unfold price_bond. rewrite Hnp.
    replace (Zfloor (m * 2) =? 0)%Z with false by (symmetry; apply Z.eqb_neq; lia).
    pose proof (price_bond_periodic_returns fv c y (Z.to_nat (Zfloor (m * 2))))
      as H.
    rewrite Z2Nat.id in H by lia. apply H; [lia | lra | assumption..].
Qed.

Lemma price_bond_does_not_validate_witness :
  (-1000 <= 0 \/ 5 / 100 < 0 \/ 1 / 4 <= 0 \/ 5 / 100 <= -1)
  /\ exists r, price_bond (-1000) (5 / 100) (5 / 100) (1 / 4) = Returns r.
Proof.
  assert (Hbad : -1000 <= 0 \/ 5 / 100 < 0 \/ 1 / 4 <= 0 \/ 5 / 100 <= -1)
    by (left; lra).
  split; [exact Hbad |].
  destruct (price_bond_does_not_validate (-1000) (5 / 100) (5 / 100) (1 / 4) Hbad)
    as (_ & Hdisc & _).
  destruct Hdisc as (_ & _ & _ & Hret); [lra |].
  apply Hret; [left; lra | lra].
Defined.

(** C5 as stated fails: a coupon rate of -0.5 is not refused.  For face
    1000, ytm 0 and one year the cash flows are -250 and 750, and a
    PricingResult comes back with price 500. *)
Lemma price_bond_does_not_validate_counterexample :
  -1 / 2 < 0
  /\ exists r, price_bond 1000 (-1 / 2) 0 1 = Returns r
               /\ price r = np 500.
Proof.
  split; [lra |]. unfold price_bond, n_periods_of.
  rewrite py_int_nonneg, Zfloor_2 by lra. cbn [Z.eqb].
  destruct (price_bond_periodic_returns 1000 (-1 / 2) 0 2) as (r & Hr & Hp).
  - lia.
  - lra.
  - unfold spec_price, spec_cash_flow. cbn [sum_1_to Nat.eqb]. lra.
  - lra.
  - exists r. split; [exact Hr |]. rewrite Hp. f_equal.
    replace (spec_price 1000 (-1 / 2) 0 2) with (IZR 500).
    + apply round_nd_IZR.
    + unfold spec_price, spec_cash_flow. cbn [sum_1_to Nat.eqb]. lra.
Qed.

(** C6, amended.  For a bond in the periodic case with face_value > 0 and
    coupon_rate >= 0, and two scenarios of a returned report of which the
    first was repriced at the strictly smaller yield: the discounted sums
    behind the two prices are strictly decreasing, and the prices, which
    are those sums rounded to 4 decimals, are decreasing, not always
    strictly. *)
Theorem stress_price_monotone (fv c y m : R) (q : Z)
        (rep : list StressScenario) (s1 s2 : StressScenario) :
  0 < fv -> 0 <= c -> 0 < m -> (1 <= Zfloor (m * 2))%Z ->
  stress_test_bond fv c y m q = Returns rep -> In s1 rep -> In s2 rep ->
  shocked_ytm y (shock_bps s1) < shocked_ytm y (shock_bps s2) ->
  let N := Z.to_nat (Zfloor (m * 2)) in
  let raw1 := spec_price fv c (shocked_ytm y (shock_bps s1)) N in
  let raw2 := spec_price fv c (shocked_ytm y (shock_bps s2)) N in
  value (scenario_price s1) = round_nd 4 raw1
  /\ value (scenario_price s2) = round_nd 4 raw2
  /\ raw2 < raw1
  /\ value (scenario_price s2) <= value (scenario_price s1).
Proof.
  intros Hfv Hc Hm Hn H Hin1 Hin2 Hlt N raw1 raw2.
  assert (Hprice : forall sc, In sc rep ->
            value (scenario_price sc)
            = round_nd 4 (spec_price fv c (shocked_ytm y (shock_bps sc)) N)).
  { intros sc Hin.
    destruct (stress_report_entry _ _ _ _ _ _ _ H Hin)
      as (base & sp & ratio & _ & _ & Hsp & _ & _ & Hp & _).
    pose proof (shocked_ytm_floor y (shock_bps sc)) as Hfloor.
    destruct (price_bond_periodic_case fv c (shocked_ytm y (shock_bps sc)) m)
      as (sp' & Hsp' & Hp'); try assumption; [lra |].
    rewrite Hsp in Hsp'. injection Hsp' as <-.
    now rewrite Hp, Hp'. }
  assert (Hraw : raw2 < raw1).
  { apply spec_price_decreasing; try assumption; [| unfold N; lia].
    pose proof (shocked_ytm_floor y (shock_bps s1)). lra. }
  rewrite (Hprice s1 Hin1), (Hprice s2 Hin2).
  repeat split; try exact Hraw.
  apply round_nd_mono. fold raw1 raw2. lra.
Qed.

Lemma stress_price_monotone_witness :
  exists rep s1 s2,
    stress_test_bond 1000 (5 / 100) (5 / 100) 1 1 = Returns rep
    /\ In s1 rep /\ In s2 rep
    /\ shocked_ytm (5 / 100) (shock_bps s1) < shocked_ytm (5 / 100) (shock_bps s2)
    /\ value (scenario_price s2) <= value (scenario_price s1).
Proof.
  destruct (par_bond_report 1) as [rep H].
  destruct (report_shape rep (stress_test_bond_shocks _ _ _ _ _ _ H))
    as (a & b & c & d & e & f & g & h & i & -> & Ha & _ & _ & _ & _ & _ & _ & _ & Hi).
  assert (Hina : In a [a; b; c; d; e; f; g; h; i]) by (cbn [In]; tauto).
  assert (Hini : In i [a; b; c; d; e; f; g; h; i]) by (cbn [In]; tauto).
  assert (Hlt : shocked_ytm (5 / 100) (shock_bps a)
                < shocked_ytm (5 / 100) (shock_bps i)).
  { rewrite Ha, Hi. unfold shocked_ytm.
    rewrite !Rmax_right by lra. lra. }
  assert (Hfv : 0 < 1000) by lra.
  assert (Hc : 0 <= 5 / 100) by lra.
  assert (Hm : 0 < 1) by lra.
  assert (Hn : (1 <= Zfloor (1 * 2))%Z) by (rewrite Zfloor_2; lia).
  exists [a; b; c; d; e; f; g; h; i], a, i.
  repeat split; try assumption.
  apply (stress_price_monotone _ _ _ _ _ _ a i Hfv Hc Hm Hn H Hina Hini Hlt).
Defined.

(** C6 as stated fails on the rounded prices.  A 5% one-year bond of face
    0.001 at a 5% yield: the shocks -50 and 0 reprice it at 4.5% and 5%,
    and both prices round to 0.0010. *)
Lemma stress_price_monotone_counterexample :
  exists rep base s1 s2,
    valid_spec (1 / 1000) (5 / 100) (5 / 100) 1
    /\ n_periods_of 1 = 2%Z
    /\ price_bond (1 / 1000) (5 / 100) (5 / 100) 1 = Returns base
    /\ 0 < value (macaulay_duration base)
    /\ stress_test_bond (1 / 1000) (5 / 100) (5 / 100) 1 1 = Returns rep
    /\ In s1 rep /\ In s2 rep
    /\ shocked_ytm (5 / 100) (shock_bps s1) < shocked_ytm (5 / 100) (shock_bps s2)
    /\ value (scenario_price s1) = value (scenario_price s2)
    /\ ~ value (scenario_price s2) < value (scenario_price s1).
Proof.
  assert (Hv : valid_spec (1 / 1000) (5 / 100) (5 / 100) 1)
    by (unfold valid_spec; lra).
  assert (Hn : (1 <= Zfloor (1 * 2))%Z) by (rewrite Zfloor_2; lia).
  assert (Hprice : forall yy r, 45 / 1000 <= yy <= 5 / 100 ->
            price_bond (1 / 1000) (5 / 100) yy 1 = Returns r ->
            value (price r) = 10 / 10 ^ 4).
  { intros yy r Hyy Hr.
    destruct (price_bond_periodic_case (1 / 1000) (5 / 100) yy 1)
      as (r' & Hr' & Hp); try lra; [exact Hn |].
    rewrite Hr in Hr'. injection Hr' as <-.
    rewrite Hp, Zfloor_2. change (Z.to_nat 2) with 2%nat. cbn [value].
    assert (Hlo : spec_price (1 / 1000) (5 / 100) (5 / 100) 2
                  <= spec_price (1 / 1000) (5 / 100) yy 2).
    { destruct (Req_dec_T yy (5 / 100)) as [-> | Hne]; [lra |].
      left. apply spec_price_decreasing; try lra. lia. }
    assert (Hhi : spec_price (1 / 1000) (5 / 100) yy 2
                  <= spec_price (1 / 1000) (5 / 100) (45 / 1000) 2).
    { destruct (Req_dec_T yy (45 / 1000)) as [-> | Hne]; [lra |].
      left. apply spec_price_decreasing; try lra. lia. }
    remember (spec_price (1 / 1000) (5 / 100) yy 2) as raw eqn:Eraw.
    clear Eraw. unfold spec_price, spec_cash_flow in Hlo, Hhi.
    cbn [sum_1_to Nat.eqb] in Hlo, Hhi.
    apply (round_nd_near 4 _ 10). lra. }
  destruct (price_bond_valid_returns _ _ _ _ Hv) as [base Hbase].
  destruct (stress_test_bond_returns _ _ _ _ 1%Z base Hv Hbase) as [rep H].
  { rewrite (Hprice (5 / 100) base); [lra | lra | exact Hbase]. }
  destruct (report_shape rep (stress_test_bond_shocks _ _ _ _ _ _ H))
    as (a & b & c0 & d & e & f & g & h & i & -> & _ & _ & _ & Hd & He & _).
  assert (Hind : In d [a; b; c0; d; e; f; g; h; i]) by (cbn [In]; tauto).
  assert (Hine : In e [a; b; c0; d; e; f; g; h; i]) by (cbn [In]; tauto).
  assert (Hyd : shocked_ytm (5 / 100) (shock_bps d) = 45 / 1000).
  { rewrite Hd. unfold shocked_ytm. rewrite Rmax_right by lra. lra. }
  assert (Hye : shocked_ytm (5 / 100) (shock_bps e) = 5 / 100).
  { rewrite He. unfold shocked_ytm. rewrite Rmax_right by lra. lra. }
  assert (Hpd : value (scenario_price d) = 10 / 10 ^ 4).
  { destruct (stress_report_entry _ _ _ _ _ _ _ H Hind)
      as (_ & sp & _ & _ & _ & Hsp & _ & _ & Hp & _).
    rewrite Hyd in Hsp. rewrite Hp. apply (Hprice (45 / 1000)); [lra | exact Hsp]. }
  assert (Hpe : value (scenario_price e) = 10 / 10 ^ 4).
  { destruct (stress_report_entry _ _ _ _ _ _ _ H Hine)
      as (_ & sp & _ & _ & _ & Hsp & _ & _ & Hp & _).
    rewrite Hye in Hsp. rewrite Hp. apply (Hprice (5 / 100)); [lra | exact Hsp]. }
  assert (Hnp : n_periods_of 1 = 2%Z).
  { unfold n_periods_of. rewrite py_int_nonneg by lra. apply Zfloor_2. }
  assert (Hmac : 0 < value (macaulay_duration base)).
  { pose proof Hbase as Hb. unfold price_bond in Hb. rewrite Hnp in Hb.
    cbn [Z.eqb] in Hb.
    assert (Hq : 1 + 5 / 100 / 2 <> 0) by lra.
    rewrite (price_bond_periodic_macaulay _ _ _ 2 base (le_S 1 1 (le_n 1)) Hq Hb).
    cbn [value].
    apply Rlt_le_trans with (round_nd 4 (1 / 2)).
    - rewrite (round_nd_near 4 _ 5000); lra.
    - apply round_nd_mono.
      unfold spec_macaulay, spec_price, spec_cash_flow.
      cbn [sum_1_to Nat.eqb INR]. lra. }
  exists [a; b; c0; d; e; f; g; h; i], base, d, e.
  split; [exact Hv |]. split; [exact Hnp |].
  split; [exact Hbase |]. split; [exact Hmac |].
  split; [exact H |]. split; [exact Hind |]. split; [exact Hine |].
  split; [rewrite Hyd, Hye; lra |].
  rewrite Hpd, Hpe. split; [reflexivity | lra].
Qed.

(** C7, amended.  Whenever [stress_test_bond] returns a report, the report
    has exactly nine scenarios and their shocks are -300, -200, -100, -50,
    0, 50, 100, 200, 300 in that order; and it returns one for every
    BondSpec whose base price does not round to zero. *)
Theorem stress_report_canonical_shocks (fv c y m : R) (q : Z) :
  (forall rep, stress_test_bond fv c y m q = Returns rep ->
     length rep = 9%nat
     /\ map shock_bps rep = [-300; -200; -100; -50; 0; 50; 100; 200; 300]%Z)
  /\ (forall base, valid_spec fv c y m ->
        price_bond fv c y m = Returns base -> value (price base) <> 0 ->
        exists rep, stress_test_bond fv c y m q = Returns rep).
Proof.
  split.
  - intros rep H. pose proof (stress_test_bond_shocks _ _ _ _ _ _ H) as Hs.
    split; [| exact Hs].
    rewrite <- (length_map shock_bps), Hs. reflexivity.
  - intros base. apply stress_test_bond_returns.
Qed.

Lemma stress_report_canonical_shocks_witness :
  exists rep,
    stress_test_bond 1000 (5 / 100) (5 / 100) 1 1 = Returns rep
    /\ length rep = 9%nat
    /\ map shock_bps rep = [-300; -200; -100; -50; 0; 50; 100; 200; 300]%Z.
Proof.
  destruct (par_bond_report 1) as [rep H]. exists rep. split; [exact H |].
  exact (proj1 (stress_report_canonical_shocks 1000 (5 / 100) (5 / 100) 1 1)
               rep H).
Defined.

(** C7 as stated fails: at ytm = -1 and a quarter of a year the base price
    divides by 0.0 ** 0.25 = 0.0 and the call raises; no list comes back. *)
Lemma stress_report_canonical_shocks_counterexample :
  stress_test_bond 1000 (5 / 100) (-1) (1 / 4) 1 = Raises ZeroDivisionError
  /\ ~ (exists rep,
          stress_test_bond 1000 (5 / 100) (-1) (1 / 4) 1 = Returns rep
          /\ map shock_bps rep = shocks).
Proof.
  assert (H : stress_test_bond 1000 (5 / 100) (-1) (1 / 4) 1
              = Raises ZeroDivisionError).
  { unfold stress_test_bond. rewrite price_bond_discount_case by lra.
    unfold price_bond_discount, py_pow.
    destruct (Rlt_dec 0 (1 + -1)) as [Hlt | _]; [lra |].
    destruct (Req_dec_T (1 / 4) 0) as [E | _]; [lra |].
    destruct (Req_dec_T (1 + -1) 0) as [_ | N]; [| lra].
    destruct (Rlt_dec 0 (1 / 4)) as [_ | N]; [| lra].
    cbn [bind py_truediv]. unfold py_div.
    destruct (Req_dec_T 0 0) as [_ | N]; [reflexivity | contradiction]. }
  split; [exact H |]. intros (rep & Hrep & _). rewrite H in Hrep. discriminate.
Qed.

(** C8.  The division behind pnl_pct is not guarded.  A BondSpec of face
    0.00001, no coupon, a 5% yield and a quarter of a year has a base price
    that rounds to 0.0000; the first turn of the loop then divides 0.0 by
    0.0 on Python floats and the call raises ZeroDivisionError. *)
Theorem stress_pnl_pct_unguarded :
  valid_spec (1 / 100000) 0 (5 / 100) (1 / 4)
  /\ stress_test_bond (1 / 100000) 0 (5 / 100) (1 / 4) 1
     = Raises ZeroDivisionError.
Proof.
  split; [unfold valid_spec; lra |].
  assert (Hzero : forall yy, 0 <= yy ->
            round_nd 4 (1 / 100000 / Rpower (1 + yy) (1 / 4)) = 0).
  { intros yy Hyy.
    pose proof (Rpower_ge_1 (1 + yy) (1 / 4)) as Hp.
    assert (H1 : 1 <= Rpower (1 + yy) (1 / 4)) by (apply Hp; lra).
    assert (Hi : 0 < / Rpower (1 + yy) (1 / 4) <= 1).
    { split; [apply Rinv_0_lt_compat; lra |].
      pose proof (Rinv_le_contravar 1 (Rpower (1 + yy) (1 / 4)) Rlt_0_1 H1) as Hle.
      now rewrite Rinv_1 in Hle. }
    rewrite (round_nd_near 4 _ 0); [lra |].
    unfold Rdiv. remember (/ Rpower (1 + yy) (1 / 4)) as t. lra. }
  unfold stress_test_bond.
  rewrite price_bond_discount_case, price_bond_discount_returns by lra.
  cbn [bind shocks for_each]. unfold stress_scenario at 1.
  pose proof (shocked_ytm_floor (5 / 100) (-300)) as Hs.
  rewrite price_bond_discount_case, price_bond_discount_returns by lra.
  cbn [bind price]. rewrite !Hzero by lra.
  unfold num_div, num_sub, coerce. cbn [is_np orb value]. unfold py_div.
  destruct (Req_dec_T 0 0) as [_ | N]; [reflexivity | contradiction].
Qed.

(** C9. With 0 < maturity_years < 0.5, two calls that differ only in the
    coupon rate return results that agree on every field but coupon_pct:
    if one returns so does the other, with the same price, durations,
    convexity, dv01, current_yield, price_to_face and ytm_pct; and on a
    BondSpec they do return. *)
Theorem discount_result_ignores_coupon (fv y m c1 c2 : R) :
  0 < m < 1 / 2 -> 0 <= c1 -> 0 <= c2 ->
  (forall r1, price_bond fv c1 y m = Returns r1 ->
     exists r2,
       price_bond fv c2 y m = Returns r2
       /\ price r1 = price r2
       /\ macaulay_duration r1 = macaulay_duration r2
       /\ modified_duration r1 = modified_duration r2
       /\ convexity r1 = convexity r2
       /\ dv01 r1 = dv01 r2
       /\ current_yield r1 = current_yield r2
       /\ price_to_face r1 = price_to_face r2
       /\ ytm_pct r1 = ytm_pct r2)
  /\ (0 < fv -> -1 < y -> exists r1, price_bond fv c1 y m = Returns r1).
Proof.
  intros Hm _ _. split.
  - intros r1. rewrite !price_bond_discount_case by lra.
    unfold price_bond_discount.
    destruct (py_pow (1 + y) m) as [pw | e |]; cbn [bind]; try discriminate.
    destruct (py_truediv fv pw) as [[p |] | e |]; cbn [bind]; try discriminate.
    destruct (py_div m (1 + y)); cbn [bind]; try discriminate.
    destruct (py_div (p * m) (1 + y)); cbn [bind]; try discriminate.
    destruct (py_div p fv); cbn [bind]; try discriminate.
    intros [= <-]. eexists. split; [reflexivity |]. cbn. tauto.
  - intros Hfv Hy. rewrite price_bond_discount_case by lra.
    rewrite price_bond_discount_returns by lra. eexists. reflexivity.
Qed.

Lemma discount_result_ignores_coupon_witness :
  exists r1 r2,
    price_bond 1000 0 (685 / 10000) (1 / 4) = Returns r1
    /\ price_bond 1000 (7 / 100) (685 / 10000) (1 / 4) = Returns r2
    /\ price r1 = price r2 /\ dv01 r1 = dv01 r2.
Proof.
  assert (Hm : 0 < 1 / 4 < 1 / 2) by lra.
  assert (H1 : 0 <= 0) by lra.
  assert (H2 : 0 <= 7 / 100) by lra.
  destruct (discount_result_ignores_coupon 1000 (685 / 10000) (1 / 4) 0
              (7 / 100) Hm H1 H2) as [Hsame Hret].
  destruct Hret as [r1 Hr1]; try lra.
  destruct (Hsame r1 Hr1) as (r2 & Hr2 & Hp & _ & _ & _ & Hd & _).
  exists r1, r2. repeat split; assumption.
Defined.



(** ** The other figures of the periodic branch *)

Lemma mul_arr_map (f : nat -> R) (h : nat -> Z) (l : list nat) :
  mul_arr (map f l) (map h l) = map (fun i => f i * IZR (h i)) l.
Proof.
  induction l as [| i l IH]; [reflexivity |].
  cbn [map mul_arr]. now rewrite IH.
Qed.

Lemma sum_1_to_ext (f g : nat -> R) (k : nat) :
  (forall i, (1 <= i <= k)%nat -> f i = g i) -> sum_1_to f k = sum_1_to g k.
Proof.
  induction k as [| k IH]; intros H; cbn [sum_1_to]; [reflexivity |].
  rewrite IH by (intros i Hi; apply H; lia). rewrite (H (S k)) by lia.
  reflexivity.
Qed.

(** The whole dict of the periodic branch, in closed form. *)
Lemma price_bond_periodic_closed (fv c y : R) (N : nat) :
  (1 <= N)%nat -> 1 + y / 2 <> 0 -> spec_price fv c y N <> 0 -> fv <> 0 ->
  price_bond_periodic fv c y (Z.of_nat N)
  = Returns {|
      price := np (round_nd 4 (spec_price fv c y N));
      macaulay_duration := np (round_nd 4 (spec_macaulay fv c y N));
      modified_duration :=
        np (round_nd 4 (spec_macaulay fv c y N / (1 + y / 2)));
      convexity := np (round_nd 4 (spec_convexity fv c y N));
      dv01 :=
        np (round_nd 4 (spec_macaulay fv c y N / (1 + y / 2)
                        * spec_price fv c y N / 10000));
      current_yield :=
        if Rlt_dec 0 (spec_price fv c y N)
        then np (round_nd 4 (fv * c / spec_price fv c y N * 100))
        else py 0;
      price_to_face := np (round_nd 4 (spec_price fv c y N / fv * 100));
      ytm_pct := py (round_nd 4 (y * 100));
      coupon_pct := py (round_nd 4 (c * 100))
    |}.
Proof.
  intros HN Hq Hp Hfv. unfold price_bond_periodic.
  rewrite (pv_cash_flows_spec fv c (y / 2) N HN Hq). cbn [bind].
  rewrite arange_from_1. unfold succ_arr. rewrite map_map.
  rewrite (mul_arr_map _ Z.of_nat), (mul_arr_map _ (fun i => Z.succ (Z.of_nat i))).
  rewrite !sum_arr_seq. fold (spec_price fv c y N).
  rewrite (sum_1_to_ext
             (fun i => spec_cash_flow fv c N i / (1 + y / 2) ^ i
                       * IZR (Z.of_nat i))
             (fun i => spec_cash_flow fv c N i / (1 + y / 2) ^ i * INR i))
    by (intros i _; now rewrite INR_IZR_INZ).
  rewrite (sum_1_to_ext
             (fun i => spec_cash_flow fv c N i / (1 + y / 2) ^ i
                       * IZR (Z.of_nat i) * IZR (Z.succ (Z.of_nat i)))
             (fun i => spec_cash_flow fv c N i / (1 + y / 2) ^ i
                       * INR i * INR (S i)))
    by (intros i _; now rewrite <- Nat2Z.inj_succ, <- !INR_IZR_INZ).
  unfold np_div.
  destruct (Req_dec_T (spec_price fv c y N) 0) as [E | _]; [contradiction |].
  cbn [bind].
  destruct (Req_dec_T (1 + y / 2) 0) as [E | _]; [contradiction |].
  cbn [bind].
  destruct (Req_dec_T (spec_price fv c y N * (1 + y / 2) ^ 2 * 4) 0) as [E | _].
  { exfalso. apply Rmult_integral in E. destruct E as [E | E]; [| lra].
    apply Rmult_integral in E. destruct E as [E | E]; [contradiction |].
    now apply (pow_nonzero _ 2) in Hq. }
  cbn [bind].
  destruct (Req_dec_T fv 0) as [E | _]; [contradiction |].
  cbn [bind]. reflexivity.
Qed.

Lemma price_bond_periodic_result (fv c y m : R) :
  0 < fv -> 0 <= c -> 0 < 1 + y / 2 -> 0 < m -> (1 <= Zfloor (m * 2))%Z ->
  price_bond fv c y m
  = Returns (spec_periodic_result fv c y (Z.to_nat (Zfloor (m * 2)))).
Proof.
  intros Hfv Hc Hq Hm Hn. unfold price_bond.
  rewrite n_periods_floor by lra.
  replace (Zfloor (m * 2) =? 0)%Z with false by (symmetry; apply Z.eqb_neq; lia).
  assert (HN : (1 <= Z.to_nat (Zfloor (m * 2)))%nat) by lia.
  pose proof (spec_price_pos fv c y _ Hfv Hc Hq HN) as Hp.
  pose proof (price_bond_periodic_closed fv c y (Z.to_nat (Zfloor (m * 2)))) as H.
  rewrite Z2Nat.id in H by lia.
  rewrite H by (lia || lra). unfold spec_periodic_result. cbn zeta.
  destruct (Rlt_dec 0 (spec_price fv c y (Z.to_nat (Zfloor (m * 2)))));
    [reflexivity | contradiction].
Qed.

(** X1. On a BondSpec with at least one semi-annual period [price_bond]
    returns, and every figure is the closed form of the array code rounded
    to 4 decimals: Macaulay duration (sum of PV_i * i) / price / 2, modified
    duration Macaulay / (1 + ytm/2), convexity
    (sum of PV_i * i * (i+1)) / (price * (1 + ytm/2)^2 * 4), dv01
    modified * price / 10000, current yield coupon / price * 100 and
    price_to_face price / face_value * 100, all from the unrounded price. *)
Theorem price_bond_periodic_figures (fv c y m : R) :
  valid_spec fv c y m -> (1 <= n_periods_of m)%Z ->
  let N := Z.to_nat (n_periods_of m) in
  let p := spec_price fv c y N in
  let mac := spec_macaulay fv c y N in
  exists r,
    price_bond fv c y m = Returns r
    /\ price r = np (round_nd 4 p)
    /\ macaulay_duration r = np (round_nd 4 mac)
    /\ modified_duration r = np (round_nd 4 (mac / (1 + y / 2)))
    /\ convexity r = np (round_nd 4 (spec_convexity fv c y N))
    /\ dv01 r = np (round_nd 4 (mac / (1 + y / 2) * p / 10000))
    /\ current_yield r = np (round_nd 4 (fv * c / p * 100))
    /\ price_to_face r = np (round_nd 4 (p / fv * 100))
    /\ ytm_pct r = py (round_nd 4 (y * 100))
    /\ coupon_pct r = py (round_nd 4 (c * 100)).
Proof.
  intros (Hfv & Hc & Hy & Hm) Hn. rewrite n_periods_floor in * by lra.
  cbn zeta. rewrite price_bond_periodic_result by (lra || assumption).
  eexists. split; [reflexivity |]. cbn. tauto.
Qed.

Lemma n_periods_1 : n_periods_of 1 = 2%Z.
Proof. unfold n_periods_of. rewrite py_int_nonneg by lra. apply Zfloor_2. Qed.

Lemma price_bond_periodic_figures_witness :
  exists r,
    price_bond 1000 (5 / 100) (5 / 100) 1 = Returns r
    /\ macaulay_duration r
       = np (round_nd 4 (spec_macaulay 1000 (5 / 100) (5 / 100)
                           (Z.to_nat (n_periods_of 1)))).
Proof.
  assert (Hn : (1 <= n_periods_of 1)%Z) by (rewrite n_periods_1; lia).
  destruct (price_bond_periodic_figures _ _ _ _ par_bond_valid Hn)
    as (r & Hr & _ & Hmac & _).
  exists r. split; assumption.
Defined.

Lemma round_nd_exact (nd : nat) (x : R) (z : Z) :
  x * 10 ^ nd = IZR z -> round_nd nd x = x.
Proof.
  intros H. unfold round_nd. rewrite H, round_half_even_IZR, <- H.
  pose proof (pow10_pos nd). field. lra.
Qed.

Lemma round_nd_half_integer (z : Z) : round_nd 4 (IZR z / 2) = IZR z / 2.
Proof. apply (round_nd_exact 4 _ (z * 5000)). rewrite mult_IZR. lra. Qed.

Lemma sum_1_to_scal (a : R) (f : nat -> R) (k : nat) :
  sum_1_to (fun i => a * f i) k = a * sum_1_to f k.
Proof.
  induction k as [| k IH]; cbn [sum_1_to]; [lra |]. rewrite IH. lra.
Qed.

Lemma INR_ge_1 (i : nat) : (1 <= i)%nat -> 1 <= INR i.
Proof. intros H. change 1 with (INR 1). now apply le_INR. Qed.

(** A weighted average of the period numbers lies between 1 and [N]. *)
Lemma weighted_periods_bounds (a : nat -> R) (N : nat) :
  (forall i, (1 <= i <= N)%nat -> 0 <= a i) ->
  sum_1_to a N <= sum_1_to (fun i => a i * INR i) N
  /\ sum_1_to (fun i => a i * INR i) N <= INR N * sum_1_to a N.
Proof.
  intros Ha. split.
  - apply sum_1_to_le. intros i Hi.
    pose proof (Ha i Hi). pose proof (INR_ge_1 i (proj1 Hi)). nra.
  - rewrite <- sum_1_to_scal. apply sum_1_to_le. intros i Hi.
    pose proof (Ha i Hi). assert (INR i <= INR N) by (apply le_INR; lia). nra.
Qed.

Lemma spec_macaulay_bounds (fv c y : R) (N : nat) :
  0 < fv -> 0 <= c -> 0 < 1 + y / 2 -> (1 <= N)%nat ->
  1 / 2 <= spec_macaulay fv c y N <= INR N / 2.
Proof.
  intros Hfv Hc Hq HN.
  pose proof (spec_price_pos fv c y N Hfv Hc Hq HN) as Hp.
  destruct (weighted_periods_bounds
              (fun i => spec_cash_flow fv c N i / (1 + y / 2) ^ i) N)
    as [Hlo Hhi].
  { intros i _. apply pv_term_nonneg; [now apply spec_cash_flow_nonneg | exact Hq]. }
  fold (spec_price fv c y N) in Hlo, Hhi.
  unfold spec_macaulay.
  set (s := sum_1_to _ N) in *. set (p := spec_price fv c y N) in *.
  assert (Hi : 0 < / p) by now apply Rinv_0_lt_compat.
  assert (H1 : p * / p = 1) by (apply Rinv_r; lra).
  unfold Rdiv. split.
  - assert (1 <= s * / p) by nra. lra.
  - assert (s * / p <= INR N) by nra. lra.
Qed.

Lemma INR_to_nat (n : Z) : (0 <= n)%Z -> INR (Z.to_nat n) = IZR n.
Proof. intros H. now rewrite INR_IZR_INZ, Z2Nat.id. Qed.

(** X2. On a BondSpec with at least one period the Macaulay duration
    returned lies between half a year and n_periods / 2 years, which is at
    most maturity_years; and for a yield that is not negative the modified
    duration is at most the Macaulay duration. *)
Theorem price_bond_macaulay_bounds (fv c y m : R) :
  valid_spec fv c y m -> (1 <= n_periods_of m)%Z ->
  exists r,
    price_bond fv c y m = Returns r
    /\ 1 / 2 <= value (macaulay_duration r) <= IZR (n_periods_of m) / 2
    /\ IZR (n_periods_of m) / 2 <= m
    /\ (0 <= y -> value (modified_duration r) <= value (macaulay_duration r)).
Proof.
  intros (Hfv & Hc & Hy & Hm) Hn. rewrite n_periods_floor in * by lra.
  rewrite price_bond_periodic_result by (lra || assumption).
  eexists. split; [reflexivity |]. cbn [spec_periodic_result macaulay_duration
                                        modified_duration value].
  assert (HN : (1 <= Z.to_nat (Zfloor (m * 2)))%nat) by lia.
  assert (Hq : 0 < 1 + y / 2) by lra.
  pose proof (spec_macaulay_bounds fv c y _ Hfv Hc Hq HN) as [Hlo Hhi].
  rewrite INR_to_nat in Hhi by lia.
  split; [split |]; [| | split].
  - replace (1 / 2) with (round_nd 4 (IZR 1 / 2))
      by (rewrite round_nd_half_integer; lra).
    apply round_nd_mono. lra.
  - rewrite <- (round_nd_half_integer (Zfloor (m * 2))).
    now apply round_nd_mono.
  - pose proof (Zfloor_bound (m * 2)). lra.
  - intros Hy0. apply round_nd_mono.
    set (mac := spec_macaulay _ _ _ _) in *.
    apply Rmult_le_reg_r with (1 + y / 2); [exact Hq |].
    unfold Rdiv at 1. rewrite Rmult_assoc, Rinv_l by lra. nra.
Qed.

Lemma price_bond_macaulay_bounds_witness :
  exists r,
    price_bond 1000 (5 / 100) (5 / 100) 1 = Returns r
    /\ 1 / 2 <= value (macaulay_duration r) <= IZR (n_periods_of 1) / 2.
Proof.
  assert (Hn : (1 <= n_periods_of 1)%Z) by (rewrite n_periods_1; lia).
  destruct (price_bond_macaulay_bounds _ _ _ _ par_bond_valid Hn)
    as (r & Hr & Hb & _).
  exists r. split; assumption.
Defined.

(** The price: coupons, and the principal at the end. *)
Lemma spec_price_split (fv c y : R) (N : nat) :
  (1 <= N)%nat ->
  spec_price fv c y N
  = sum_1_to (fun i => fv * c / 2 / (1 + y / 2) ^ i) N + fv / (1 + y / 2) ^ N.
Proof.
  intros HN. destruct N as [| k]; [lia |]. unfold spec_price.
  cbn [sum_1_to].
  rewrite (sum_1_to_ext
             (fun i => spec_cash_flow fv c (S k) i / (1 + y / 2) ^ i)
             (fun i => fv * c / 2 / (1 + y / 2) ^ i) k).
  - unfold spec_cash_flow. rewrite Nat.eqb_refl. unfold Rdiv. ring.
  - intros i Hi. unfold spec_cash_flow.
    replace (Nat.eqb i (S k)) with false by (symmetry; apply Nat.eqb_neq; lia).
    unfold Rdiv. ring.
Qed.

Lemma sum_1_to_zero (k : nat) : sum_1_to (fun _ => 0) k = 0.
Proof. induction k as [| k IH]; cbn [sum_1_to]; [reflexivity | lra]. Qed.

Lemma spec_price_zero_coupon (fv y : R) (N : nat) :
  (1 <= N)%nat -> spec_price fv 0 y N = fv / (1 + y / 2) ^ N.
Proof.
  intros HN. rewrite spec_price_split by exact HN.
  rewrite (sum_1_to_ext _ (fun _ => 0)), sum_1_to_zero; [lra |].
  intros i _. unfold Rdiv. ring.
Qed.

Lemma spec_macaulay_zero_coupon (fv y : R) (N : nat) :
  (1 <= N)%nat -> fv <> 0 -> 1 + y / 2 <> 0 ->
  spec_macaulay fv 0 y N = INR N / 2.
Proof.
  intros HN Hfv Hq. unfold spec_macaulay.
  rewrite spec_price_zero_coupon by exact HN.
  destruct N as [| k]; [lia |]. cbn [sum_1_to].
  rewrite (sum_1_to_ext _ (fun _ => 0)), sum_1_to_zero.
  - unfold spec_cash_flow. rewrite Nat.eqb_refl.
    pose proof (pow_nonzero _ (S k) Hq). field. split; assumption.
  - intros i Hi. unfold spec_cash_flow.
    replace (Nat.eqb i (S k)) with false by (symmetry; apply Nat.eqb_neq; lia).
    unfold Rdiv. ring.
Qed.

(** X3. A zero-coupon BondSpec with at least one period: the price is
    face_value / (1 + ytm/2)^n_periods, the Macaulay duration is exactly
    n_periods / 2 years, and the current yield is 0. *)
Theorem price_bond_zero_coupon (fv y m : R) :
  valid_spec fv 0 y m -> (1 <= n_periods_of m)%Z ->
  exists r,
    price_bond fv 0 y m = Returns r
    /\ value (price r)
       = round_nd 4 (fv / (1 + y / 2) ^ Z.to_nat (n_periods_of m))
    /\ value (macaulay_duration r) = IZR (n_periods_of m) / 2
    /\ value (current_yield r) = 0.
Proof.
  intros (Hfv & Hc & Hy & Hm) Hn. rewrite n_periods_floor in * by lra.
  rewrite price_bond_periodic_result by (lra || assumption).
  eexists. split; [reflexivity |].
  cbn [spec_periodic_result price macaulay_duration current_yield value].
  assert (HN : (1 <= Z.to_nat (Zfloor (m * 2)))%nat) by lia.
  rewrite spec_price_zero_coupon by exact HN.
  rewrite spec_macaulay_zero_coupon by (lia || lra).
  rewrite INR_to_nat by lia. split; [reflexivity |].
  split; [apply round_nd_half_integer |].
  replace (fv * 0 / _ * 100) with 0 by (unfold Rdiv; ring).
  apply round_nd_0.
Qed.

Lemma price_bond_zero_coupon_witness :
  exists r,
    price_bond 1000 0 (5 / 100) 1 = Returns r
    /\ value (macaulay_duration r) = IZR (n_periods_of 1) / 2.
Proof.
  assert (Hv : valid_spec 1000 0 (5 / 100) 1) by (unfold valid_spec; lra).
  assert (Hn : (1 <= n_periods_of 1)%Z) by (rewrite n_periods_1; lia).
  destruct (price_bond_zero_coupon _ _ _ Hv Hn) as (r & Hr & _ & Hmac & _).
  exists r. split; assumption.
Defined.

(** The coupons of a bond whose coupon rate is its yield. *)
Lemma par_coupons (fv y : R) (k : nat) :
  1 + y / 2 <> 0 ->
  sum_1_to (fun i => fv * y / 2 / (1 + y / 2) ^ i) k
  = fv - fv / (1 + y / 2) ^ k.
Proof.
  intros Hq. induction k as [| k IH]; cbn [sum_1_to].
  - cbn [pow]. lra.
  - rewrite IH. pose proof (pow_nonzero _ k Hq). cbn [pow].
    field. split; [assumption | intros E; apply Hq; lra].
Qed.

Lemma spec_price_par (fv y : R) (N : nat) :
  (1 <= N)%nat -> 1 + y / 2 <> 0 -> spec_price fv y y N = fv.
Proof.
  intros HN Hq. rewrite spec_price_split, par_coupons by assumption. lra.
Qed.

(** X4. A BondSpec whose coupon rate equals its yield prices at par: the
    price is face_value (rounded), price_to_face is 100, and the current
    yield is the coupon in percent, the same number as coupon_pct. *)
Theorem price_bond_at_par (fv y m : R) :
  valid_spec fv y y m -> (1 <= n_periods_of m)%Z ->
  exists r,
    price_bond fv y y m = Returns r
    /\ value (price r) = round_nd 4 fv
    /\ value (price_to_face r) = 100
    /\ value (current_yield r) = value (coupon_pct r).
Proof.
  intros (Hfv & Hc & Hy & Hm) Hn. rewrite n_periods_floor in * by lra.
  rewrite price_bond_periodic_result by (lra || assumption).
  eexists. split; [reflexivity |].
  cbn [spec_periodic_result price price_to_face current_yield coupon_pct value].
  rewrite spec_price_par by (lia || lra).
  split; [reflexivity |]. split.
  - replace (fv / fv * 100) with (IZR 100) by (field; lra).
    apply round_nd_IZR.
  - f_equal. field. lra.
Qed.

Lemma price_bond_at_par_witness :
  exists r,
    price_bond 1000 (5 / 100) (5 / 100) 1 = Returns r
    /\ value (price r) = round_nd 4 1000
    /\ value (price_to_face r) = 100.
Proof.
  assert (Hn : (1 <= n_periods_of 1)%Z) by (rewrite n_periods_1; lia).
  destruct (price_bond_at_par _ _ _ par_bond_valid Hn) as (r & Hr & Hp & Hf & _).
  exists r. repeat split; assumption.
Defined.

(** X5. A BondSpec with at least one period trades at a premium when its
    coupon rate is above its yield and at a discount when it is below: the
    unrounded discounted sum is strictly above (below) face_value, and the
    price returned is at least (at most) face_value rounded. *)
Theorem price_bond_premium_discount (fv c y m : R) :
  valid_spec fv c y m -> (1 <= n_periods_of m)%Z ->
  let raw := spec_price fv c y (Z.to_nat (n_periods_of m)) in
  exists r,
    price_bond fv c y m = Returns r
    /\ value (price r) = round_nd 4 raw
    /\ (y < c -> fv < raw /\ round_nd 4 fv <= value (price r))
    /\ (c < y -> raw < fv /\ value (price r) <= round_nd 4 fv).
Proof.
  intros (Hfv & Hc & Hy & Hm) Hn. rewrite n_periods_floor in * by lra.
  cbn zeta. rewrite price_bond_periodic_result by (lra || assumption).
  eexists. split; [reflexivity |]. cbn [spec_periodic_result price value].
  set (N := Z.to_nat (Zfloor (m * 2))).
  assert (HN : (1 <= N)%nat) by (unfold N; lia).
  split; [reflexivity |]. split.
  - intros Hlt.
    assert (H : spec_price fv c c N < spec_price fv c y N)
      by (apply spec_price_decreasing; try lra; exact HN).
    rewrite spec_price_par in H by (exact HN || lra).
    split; [exact H | apply round_nd_mono; lra].
  - intros Hlt.
    assert (H : spec_price fv c y N < spec_price fv c c N)
      by (apply spec_price_decreasing; try lra; exact HN).
    rewrite spec_price_par in H by (exact HN || lra).
    split; [exact H | apply round_nd_mono; lra].
Qed.

Lemma price_bond_premium_discount_witness :
  exists r,
    price_bond 1000 (726 / 10000) (712 / 10000) 10 = Returns r
    /\ round_nd 4 1000 <= value (price r).
Proof.
  assert (Hv : valid_spec 1000 (726 / 10000) (712 / 10000) 10)
    by (unfold valid_spec; lra).
  assert (Hn : (1 <= n_periods_of 10)%Z).
  { unfold n_periods_of. rewrite py_int_nonneg, Zfloor_20 by lra. lia. }
  destruct (price_bond_premium_discount _ _ _ _ Hv Hn) as (r & Hr & _ & Hprem & _).
  exists r. split; [exact Hr |]. apply Hprem. lra.
Defined.

(** ** Face value as a scale *)

Lemma spec_cash_flow_scale (k fv c : R) (N i : nat) :
  spec_cash_flow (k * fv) c N i = k * spec_cash_flow fv c N i.
Proof. unfold spec_cash_flow. destruct (Nat.eqb i N); lra. Qed.

Lemma spec_price_scale (k fv c y : R) (N : nat) :
  spec_price (k * fv) c y N = k * spec_price fv c y N.
Proof.
  unfold spec_price. rewrite <- sum_1_to_scal. apply sum_1_to_ext.
  intros i _. rewrite spec_cash_flow_scale. unfold Rdiv. ring.
Qed.

Lemma spec_macaulay_scale (k fv c y : R) (N : nat) :
  k <> 0 -> spec_price fv c y N <> 0 ->
  spec_macaulay (k * fv) c y N = spec_macaulay fv c y N.
Proof.
  intros Hk Hp. unfold spec_macaulay. rewrite spec_price_scale.
  rewrite (sum_1_to_ext _
             (fun i => k * (spec_cash_flow fv c N i / (1 + y / 2) ^ i * INR i)))
    by (intros i _; rewrite spec_cash_flow_scale; unfold Rdiv; ring).
  rewrite sum_1_to_scal. field. split; assumption.
Qed.

Lemma spec_convexity_scale (k fv c y : R) (N : nat) :
  k <> 0 -> spec_price fv c y N <> 0 -> 1 + y / 2 <> 0 ->
  spec_convexity (k * fv) c y N = spec_convexity fv c y N.
Proof.
  intros Hk Hp Hq. unfold spec_convexity. rewrite spec_price_scale.
  rewrite (sum_1_to_ext _
             (fun i => k * (spec_cash_flow fv c N i / (1 + y / 2) ^ i
                            * INR i * INR (S i))))
    by (intros i _; rewrite spec_cash_flow_scale; unfold Rdiv; ring).
  rewrite sum_1_to_scal. field.
  repeat split; try assumption. intros E. apply Hq. lra.
Qed.

Lemma spec_periodic_result_scale (k fv c y : R) (N : nat) (r1 r2 : PricingResult) :
  0 < k -> 0 < fv -> 0 <= c -> 0 < 1 + y / 2 -> (1 <= N)%nat ->
  r1 = spec_periodic_result fv c y N ->
  r2 = spec_periodic_result (k * fv) c y N ->
  macaulay_duration r1 = macaulay_duration r2
  /\ modified_duration r1 = modified_duration r2
  /\ convexity r1 = convexity r2
  /\ current_yield r1 = current_yield r2
  /\ price_to_face r1 = price_to_face r2
  /\ ytm_pct r1 = ytm_pct r2
  /\ coupon_pct r1 = coupon_pct r2.
Proof.
  intros Hk Hfv Hc Hq HN -> ->.
  pose proof (spec_price_pos fv c y N Hfv Hc Hq HN) as Hp.
  unfold spec_periodic_result. cbn.
  rewrite spec_macaulay_scale, spec_convexity_scale, spec_price_scale by lra.
  repeat split; do 2 f_equal; field; lra.
Qed.

(** X6. The durations, the convexity, the current yield and the three
    percentages do not depend on the face value: two BondSpecs that differ
    only in face_value get the same macaulay_duration, modified_duration,
    convexity, current_yield, price_to_face, ytm_pct and coupon_pct, in the
    periodic and in the discount branch. *)
Theorem price_bond_face_value_scale (fv1 fv2 c y m : R) :
  valid_spec fv1 c y m -> 0 < fv2 ->
  exists r1 r2,
    price_bond fv1 c y m = Returns r1
    /\ price_bond fv2 c y m = Returns r2
    /\ macaulay_duration r1 = macaulay_duration r2
    /\ modified_duration r1 = modified_duration r2
    /\ convexity r1 = convexity r2
    /\ current_yield r1 = current_yield r2
    /\ price_to_face r1 = price_to_face r2
    /\ ytm_pct r1 = ytm_pct r2
    /\ coupon_pct r1 = coupon_pct r2.
Proof.
  intros (Hfv & Hc & Hy & Hm) Hfv2.
  destruct (Rlt_dec m (1 / 2)) as [Hlt | Hge].
  - rewrite !price_bond_discount_case by lra.
    rewrite !price_bond_discount_returns by lra.
    do 2 eexists. split; [reflexivity |]. split; [reflexivity |]. cbn.
    pose proof (Rpower_pos (1 + y) m).
    repeat split. do 2 f_equal. field. lra.
  - assert (Hn : (1 <= Zfloor (m * 2))%Z) by (apply Zfloor_lub; lra).
    rewrite !price_bond_periodic_result by (lra || assumption).
    do 2 eexists. split; [reflexivity |]. split; [reflexivity |].
    apply (spec_periodic_result_scale (fv2 / fv1) fv1 c y
             (Z.to_nat (Zfloor (m * 2)))); try lra; try lia.
    + apply Rdiv_lt_0_compat; lra.
    + reflexivity.
    + f_equal. field. lra.
Qed.

Lemma price_bond_face_value_scale_witness :
  exists r1 r2,
    price_bond 1000 (5 / 100) (5 / 100) 1 = Returns r1
    /\ price_bond 100 (5 / 100) (5 / 100) 1 = Returns r2
    /\ macaulay_duration r1 = macaulay_duration r2
    /\ convexity r1 = convexity r2.
Proof.
  assert (H2 : 0 < 100) by lra.
  destruct (price_bond_face_value_scale 1000 100 _ _ _ par_bond_valid H2)
    as (r1 & r2 & Hr1 & Hr2 & Hmac & _ & Hcv & _).
  exists r1, r2. repeat split; assumption.
Defined.

(** ** Signs *)

Lemma round_nd_nonneg (nd : nat) (x : R) : 0 <= x -> 0 <= round_nd nd x.
Proof. intros H. rewrite <- (round_nd_0 nd). now apply round_nd_mono. Qed.

Lemma round_nd_nonpos (nd : nat) (x : R) : x <= 0 -> round_nd nd x <= 0.
Proof. intros H. rewrite <- (round_nd_0 nd). now apply round_nd_mono. Qed.

Lemma spec_convexity_nonneg (fv c y : R) (N : nat) :
  0 < fv -> 0 <= c -> 0 < 1 + y / 2 -> (1 <= N)%nat ->
  0 <= spec_convexity fv c y N.
Proof.
  intros Hfv Hc Hq HN. unfold spec_convexity.
  pose proof (spec_price_pos fv c y N Hfv Hc Hq HN) as Hp.
  apply Rmult_le_pos.
  - apply sum_1_to_nonneg. intros i _.
    repeat apply Rmult_le_pos; try apply pos_INR.
    + now apply spec_cash_flow_nonneg.
    + left. apply Rinv_0_lt_compat. now apply pow_lt.
  - left. apply Rinv_0_lt_compat.
    assert (0 < (1 + y / 2) ^ 2) by now apply pow_lt. nra.
Qed.

(** X7. On a BondSpec no figure but ytm_pct can come out negative: the
    price, both durations, the convexity, dv01, the current yield,
    price_to_face and coupon_pct returned are all at least 0, in both
    branches. *)
Theorem price_bond_figures_nonneg (fv c y m : R) :
  valid_spec fv c y m ->
  exists r,
    price_bond fv c y m = Returns r
    /\ 0 <= value (price r)
    /\ 0 <= value (macaulay_duration r)
    /\ 0 <= value (modified_duration r)
    /\ 0 <= value (convexity r)
    /\ 0 <= value (dv01 r)
    /\ 0 <= value (current_yield r)
    /\ 0 <= value (price_to_face r)
    /\ 0 <= value (coupon_pct r).
Proof.
  intros (Hfv & Hc & Hy & Hm).
  destruct (Rlt_dec m (1 / 2)) as [Hlt | Hge].
  - rewrite price_bond_discount_case by lra.
    rewrite price_bond_discount_returns by lra.
    eexists. split; [reflexivity |]. cbn.
    pose proof (Rpower_pos (1 + y) m) as Hp.
    assert (Hi : 0 < / Rpower (1 + y) m) by now apply Rinv_0_lt_compat.
    assert (Hy' : 0 < / (1 + y)) by (apply Rinv_0_lt_compat; lra).
    assert (Hf : 0 < / fv) by now apply Rinv_0_lt_compat.
    assert (Hpr : 0 < fv / Rpower (1 + y) m) by (unfold Rdiv; nra).
    repeat split; try lra; apply round_nd_nonneg; unfold Rdiv;
      first [lra | repeat apply Rmult_le_pos; lra].
  - assert (Hn : (1 <= Zfloor (m * 2))%Z) by (apply Zfloor_lub; lra).
    rewrite price_bond_periodic_result by (lra || assumption).
    eexists. split; [reflexivity |]. cbn.
    set (N := Z.to_nat (Zfloor (m * 2))).
    assert (HN : (1 <= N)%nat) by (unfold N; lia).
    assert (Hq : 0 < 1 + y / 2) by lra.
    pose proof (spec_price_pos fv c y N Hfv Hc Hq HN) as Hp.
    pose proof (spec_macaulay_bounds fv c y N Hfv Hc Hq HN) as [Hmac _].
    pose proof (spec_convexity_nonneg fv c y N Hfv Hc Hq HN) as Hcv.
    assert (Hi : 0 < / spec_price fv c y N) by now apply Rinv_0_lt_compat.
    assert (Hqi : 0 < / (1 + y / 2)) by now apply Rinv_0_lt_compat.
    assert (Hf : 0 < / fv) by now apply Rinv_0_lt_compat.
    assert (Hmod : 0 <= spec_macaulay fv c y N / (1 + y / 2))
      by (unfold Rdiv; nra).
    assert (Hdv : 0 <= spec_macaulay fv c y N / (1 + y / 2)
                       * spec_price fv c y N / 10000)
      by (unfold Rdiv in *; nra).
    assert (Hcy : 0 <= fv * c / spec_price fv c y N * 100)
      by (assert (0 <= fv * c) by nra; unfold Rdiv; nra).
    assert (Hptf : 0 <= spec_price fv c y N / fv * 100)
      by (unfold Rdiv; nra).
    repeat split; apply round_nd_nonneg; first [assumption | lra].
Qed.

Lemma price_bond_figures_nonneg_witness :
  exists r,
    price_bond 1000 (5 / 100) (5 / 100) 1 = Returns r
    /\ 0 <= value (price r) /\ 0 <= value (dv01 r).
Proof.
  destruct (price_bond_figures_nonneg _ _ _ _ par_bond_valid)
    as (r & Hr & Hp & _ & _ & _ & Hd & _).
  exists r. repeat split; assumption.
Defined.

(** ** Price against yield, in both branches *)

Lemma price_bond_price_antitone (fv c y1 y2 m : R) (r1 r2 : PricingResult) :
  valid_spec fv c y1 m -> y1 <= y2 ->
  price_bond fv c y1 m = Returns r1 -> price_bond fv c y2 m = Returns r2 ->
  value (price r2) <= value (price r1).
Proof.
  intros (Hfv & Hc & Hy & Hm) Hle.
  destruct (Rlt_dec m (1 / 2)) as [Hlt | Hge].
  - rewrite !price_bond_discount_case by lra.
    rewrite !price_bond_discount_returns by lra.
    intros [= <-] [= <-]. cbn [price value]. apply round_nd_mono.
    pose proof (Rpower_pos (1 + y1) m) as H1.
    assert (H12 : Rpower (1 + y1) m <= Rpower (1 + y2) m)
      by (apply Rle_Rpower_l; lra).
    unfold Rdiv. apply Rmult_le_compat_l; [lra |].
    apply Rinv_le_contravar; assumption.
  - assert (Hn : (1 <= Zfloor (m * 2))%Z) by (apply Zfloor_lub; lra).
    rewrite !price_bond_periodic_result by (lra || assumption).
    intros [= <-] [= <-]. cbn [spec_periodic_result price value].
    apply round_nd_mono.
    destruct (Req_dec_T y1 y2) as [-> | Hne]; [lra |].
    left. apply spec_price_decreasing; try lra. lia.
Qed.

Lemma price_bond_price_nonneg (fv c y m : R) (r : PricingResult) :
  valid_spec fv c y m -> price_bond fv c y m = Returns r -> 0 <= value (price r).
Proof.
  intros (Hfv & Hc & Hy & Hm).
  destruct (Rlt_dec m (1 / 2)) as [Hlt | Hge].
  - rewrite price_bond_discount_case by lra.
    rewrite price_bond_discount_returns by lra.
    intros [= <-]. cbn [price value]. apply round_nd_nonneg.
    pose proof (Rpower_pos (1 + y) m).
    left. apply Rdiv_lt_0_compat; lra.
  - assert (Hn : (1 <= Zfloor (m * 2))%Z) by (apply Zfloor_lub; lra).
    rewrite price_bond_periodic_result by (lra || assumption).
    intros [= <-]. cbn [spec_periodic_result price value].
    apply round_nd_nonneg. left. apply spec_price_pos; try lra. lia.
Qed.

Lemma shocked_ytm_up (y : R) (s : Z) : (0 <= s)%Z -> y <= shocked_ytm y s.
Proof.
  intros Hs. unfold shocked_ytm.
  apply Rle_trans with (y + IZR s / 10000); [| apply Rmax_r].
  apply IZR_le in Hs. lra.
Qed.

Lemma shocked_ytm_down (y : R) (s : Z) :
  (s <= 0)%Z -> 1 / 10000 <= y -> shocked_ytm y s <= y.
Proof.
  intros Hs Hy. unfold shocked_ytm. apply Rmax_lub; [exact Hy |].
  apply IZR_le in Hs. lra.
Qed.

(** X8. On a BondSpec, in every scenario of a returned report: a shock
    that is not negative never shows a gain (pnl_per_bond <= 0 and
    pnl_pct <= 0), and, when the yield is at least 0.0001, a shock that is
    not positive never shows a loss. *)
Theorem stress_pnl_sign (fv c y m : R) (q : Z)
        (rep : list StressScenario) (sc : StressScenario) :
  valid_spec fv c y m ->
  stress_test_bond fv c y m q = Returns rep -> In sc rep ->
  ((0 <= shock_bps sc)%Z ->
     value (pnl_per_bond sc) <= 0 /\ value (pnl_pct sc) <= 0)
  /\ ((shock_bps sc <= 0)%Z -> 1 / 10000 <= y ->
     0 <= value (pnl_per_bond sc) /\ 0 <= value (pnl_pct sc)).
Proof.
  intros Hv H Hin.
  destruct (stress_report_entry _ _ _ _ _ _ _ H Hin)
    as (base & sp & ratio & _ & Hbase & Hsp & Hr & _ & _ & Hpnl & _ & Hpct).
  destruct (num_div_value _ _ _ Hr) as [Hb0 Hrv].
  pose proof (price_bond_price_nonneg _ _ _ _ _ Hv Hbase) as Hb.
  assert (Hbi : 0 < / value (price base)) by (apply Rinv_0_lt_compat; lra).
  rewrite Hpnl, Hpct, !value_num_round. unfold num_mul.
  rewrite value_coerce, Hrv, !value_num_sub.
  destruct Hv as (Hfv & Hc & Hy & Hm).
  pose proof (shocked_ytm_floor y (shock_bps sc)) as Hfloor.
  split.
  - intros Hs.
    assert (Hd : value (price sp) <= value (price base)).
    { apply (price_bond_price_antitone fv c y (shocked_ytm y (shock_bps sc)) m);
        try assumption; [repeat split; assumption | now apply shocked_ytm_up]. }
    split; apply round_nd_nonpos; [lra |]. unfold Rdiv. nra.
  - intros Hs Hy1.
    assert (Hd : value (price base) <= value (price sp)).
    { apply (price_bond_price_antitone fv c (shocked_ytm y (shock_bps sc)) y m);
        try assumption; [repeat split; try assumption; lra
                        | now apply shocked_ytm_down]. }
    split; apply round_nd_nonneg; [lra |]. unfold Rdiv. nra.
Qed.

Lemma stress_pnl_sign_witness :
  exists rep sc,
    stress_test_bond 1000 (5 / 100) (5 / 100) 1 1 = Returns rep /\ In sc rep
    /\ (0 <= shock_bps sc)%Z
    /\ value (pnl_per_bond sc) <= 0 /\ value (pnl_pct sc) <= 0.
Proof.
  destruct (par_bond_report 1) as [rep H].
  destruct (report_shape rep (stress_test_bond_shocks _ _ _ _ _ _ H))
    as (a & b & c & d & e & f & g & h & i & -> & _ & _ & _ & _ & _ & _ & _ & _ & Hi).
  assert (Hin : In i [a; b; c; d; e; f; g; h; i]) by (cbn [In]; tauto).
  assert (Hs : (0 <= shock_bps i)%Z) by (rewrite Hi; lia).
  exists [a; b; c; d; e; f; g; h; i], i.
  split; [exact H |]. split; [exact Hin |]. split; [exact Hs |].
  exact (proj1 (stress_pnl_sign _ _ _ _ _ _ i par_bond_valid H Hin) Hs).
Defined.

(** ** Rounding is odd *)

Lemma round_half_even_opp (x : R) : round_half_even (- x) = (- round_half_even x)%Z.
Proof.
  pose proof (Zfloor_bound x) as [Hlo Hhi].
  destruct (Req_dec_T x (IZR (Zfloor x))) as [E | Hne].
  - rewrite E, <- opp_IZR, !round_half_even_IZR. reflexivity.
  - assert (Hf : Zfloor (- x) = (- Zfloor x - 1)%Z).
    { apply Zfloor_eq. rewrite minus_IZR, opp_IZR. lra. }
    unfold round_half_even. rewrite Hf, minus_IZR, opp_IZR.
    destruct (Rlt_dec (x - IZR (Zfloor x)) (1 / 2));
      destruct (Rlt_dec (- x - (- IZR (Zfloor x) - 1)) (1 / 2)); try lra;
      destruct (Rlt_dec (1 / 2) (- x - (- IZR (Zfloor x) - 1))); try lra;
      try lia;
      destruct (Rlt_dec (1 / 2) (x - IZR (Zfloor x))); try lra; try lia.
    replace (- Zfloor x - 1)%Z with (- (Zfloor x + 1))%Z by lia.
    rewrite Z.even_opp, Z.even_add. cbn [Z.even].
    destruct (Z.even (Zfloor x)); cbn; lia.
Qed.

Lemma round_nd_opp (nd : nat) (x : R) : round_nd nd (- x) = - round_nd nd x.
Proof.
  unfold round_nd. replace (- x * 10 ^ nd) with (- (x * 10 ^ nd)) by ring.
  rewrite round_half_even_opp, opp_IZR. unfold Rdiv. ring.
Qed.

(** ** Quantity *)

Lemma for_each_related {A B : Type} (rel : B -> B -> Prop)
      (body1 body2 : A -> outcome B) (l : list A) (bs1 bs2 : list B) :
  (forall a b1 b2, body1 a = Returns b1 -> body2 a = Returns b2 -> rel b1 b2) ->
  for_each body1 l = Returns bs1 -> for_each body2 l = Returns bs2 ->
  Forall2 rel bs1 bs2.
Proof.
  intros Hbody. revert bs1 bs2.
  induction l as [| a l IH]; intros bs1 bs2; cbn [for_each].
  - intros [= <-] [= <-]. constructor.
  - destruct (body1 a) as [b1 | e |] eqn:Hb1; cbn [bind]; try discriminate.
    destruct (for_each body1 l) as [l1 | e |]; cbn [bind]; try discriminate.
    intros [= <-].
    destruct (body2 a) as [b2 | e |] eqn:Hb2; cbn [bind]; try discriminate.
    destruct (for_each body2 l) as [l2 | e |]; cbn [bind]; try discriminate.
    intros [= <-].
    constructor; [now apply (Hbody a) | now apply IH].
Qed.

(** X9. The quantity reaches total_pnl and nothing else: two reports that
    come back for the same bond and two quantities agree, scenario by
    scenario, on the shock, the shocked yield, the price, pnl_per_bond and
    pnl_pct; and when the quantities are opposite every total_pnl is the
    exact opposite. *)
Theorem stress_quantity (fv c y m : R) (q1 q2 : Z)
        (rep1 rep2 : list StressScenario) :
  stress_test_bond fv c y m q1 = Returns rep1 ->
  stress_test_bond fv c y m q2 = Returns rep2 ->
  Forall2
    (fun a b =>
       shock_bps a = shock_bps b
       /\ shocked_ytm_pct a = shocked_ytm_pct b
       /\ scenario_price a = scenario_price b
       /\ pnl_per_bond a = pnl_per_bond b
       /\ pnl_pct a = pnl_pct b
       /\ (q2 = (- q1)%Z -> value (total_pnl b) = - value (total_pnl a)))
    rep1 rep2.
Proof.
  unfold stress_test_bond.
  destruct (price_bond fv c y m) as [base | e |]; cbn [bind]; try discriminate.
  apply for_each_related. intros s a b. unfold stress_scenario.
  destruct (price_bond fv c (shocked_ytm y s) m) as [sp | e |];
    cbn [bind]; try discriminate.
  destruct (num_div _ (price base)) as [ratio | e |]; cbn [bind]; try discriminate.
  intros [= <-] [= <-]. cbn.
  repeat split. intros ->.
  rewrite !value_num_round. unfold num_mul_int.
  rewrite !value_coerce, opp_IZR, <- round_nd_opp. f_equal. ring.
Qed.

Lemma stress_quantity_witness :
  exists rep1 rep2,
    stress_test_bond 1000 (5 / 100) (5 / 100) 1 7 = Returns rep1
    /\ stress_test_bond 1000 (5 / 100) (5 / 100) 1 (-7) = Returns rep2
    /\ Forall2 (fun a b => scenario_price a = scenario_price b
                           /\ value (total_pnl b) = - value (total_pnl a))
               rep1 rep2.
Proof.
  destruct (par_bond_report 7) as [rep1 H1].
  destruct (par_bond_report (-7)) as [rep2 H2].
  exists rep1, rep2. split; [exact H1 |]. split; [exact H2 |].
  pose proof (stress_quantity _ _ _ _ 7 (-7) rep1 rep2 H1 H2) as Hall.
  revert Hall. apply Forall2_impl. intros a b Hab.
  split; [apply Hab | now apply Hab].
Defined.

(** X10. The shocked yields a report shows, in percent, are at least 0.01
    and rise with the shock: of two scenarios the one with the smaller
    shock_bps never shows the larger shocked_ytm. *)
Theorem stress_shocked_yields_sorted (fv c y m : R) (q : Z)
        (rep : list StressScenario) (a b : StressScenario) :
  stress_test_bond fv c y m q = Returns rep -> In a rep -> In b rep ->
  (shock_bps a <= shock_bps b)%Z ->
  1 / 100 <= value (shocked_ytm_pct a) <= value (shocked_ytm_pct b).
Proof.
  intros H Ha Hb Hab.
  destruct (stress_report_entry _ _ _ _ _ _ _ H Ha)
    as (_ & _ & _ & _ & _ & _ & _ & Hpa & _).
  destruct (stress_report_entry _ _ _ _ _ _ _ H Hb)
    as (_ & _ & _ & _ & _ & _ & _ & Hpb & _).
  rewrite Hpa, Hpb. cbn [value]. split.
  - replace (1 / 100) with (round_nd 4 (1 / 100))
      by (apply (round_nd_exact 4 _ 100); lra).
    apply round_nd_mono. pose proof (shocked_ytm_floor y (shock_bps a)). lra.
  - apply round_nd_mono. apply Rmult_le_compat_r; [lra |].
    unfold shocked_ytm. apply Rle_max_compat_l.
    apply IZR_le in Hab. lra.
Qed.

Lemma stress_shocked_yields_sorted_witness :
  exists rep a b,
    stress_test_bond 1000 (5 / 100) (5 / 100) 1 1 = Returns rep
    /\ In a rep /\ In b rep /\ (shock_bps a <= shock_bps b)%Z
    /\ 1 / 100 <= value (shocked_ytm_pct a) <= value (shocked_ytm_pct b).
Proof.
  destruct (par_bond_report 1) as [rep H].
  destruct (report_shape rep (stress_test_bond_shocks _ _ _ _ _ _ H))
    as (a & b & c & d & e & f & g & h & i & -> & Ha & _ & _ & _ & _ & _ & _ & _ & Hi).
  assert (Hina : In a [a; b; c; d; e; f; g; h; i]) by (cbn [In]; tauto).
  assert (Hini : In i [a; b; c; d; e; f; g; h; i]) by (cbn [In]; tauto).
  assert (Hle : (shock_bps a <= shock_bps i)%Z) by (rewrite Ha, Hi; lia).
  exists [a; b; c; d; e; f; g; h; i], a, i.
  split; [exact H |]. split; [exact Hina |]. split; [exact Hini |].
  split; [exact Hle |].
  exact (stress_shocked_yields_sorted _ _ _ _ _ _ a i H Hina Hini Hle).
Defined.

(** ** How a stress test can fail *)

Lemma price_bond_discount_py (fv c y m : R) (r : PricingResult) :
  price_bond_discount fv c y m = Returns r -> is_np (price r) = false.
Proof.
  unfold price_bond_discount.
  destruct (py_pow (1 + y) m) as [pw | e |]; cbn [bind]; try discriminate.
  destruct (py_truediv fv pw) as [[p |] | e |]; cbn [bind]; try discriminate.
  destruct (py_div m (1 + y)); cbn [bind]; try discriminate.
  destruct (py_div (p * m) (1 + y)); cbn [bind]; try discriminate.
  destruct (py_div p fv); cbn [bind]; try discriminate.
  intros [= <-]. reflexivity.
Qed.

(** X12. On a BondSpec, with a quantity that a double holds exactly, the
    outcome of the stress test turns on the base price as it is rounded to
    4 decimals: when that is not 0.0000 the report comes back; when it is,
    the division behind pnl_pct raises ZeroDivisionError in the discount
    branch and gives nan in the periodic branch. *)
Theorem stress_bondspec_outcome (fv c y m : R) (q : Z) (base : PricingResult) :
  valid_spec fv c y m -> exact_in_double q ->
  price_bond fv c y m = Returns base ->
  (value (price base) <> 0 ->
     exists rep, stress_test_bond fv c y m q = Returns rep)
  /\ (value (price base) = 0 -> m < 1 / 2 ->
      stress_test_bond fv c y m q = Raises ZeroDivisionError)
  /\ (value (price base) = 0 -> 1 / 2 <= m ->
      stress_test_bond fv c y m q = NonFinite).
Proof.
  intros Hv _ Hbase. split; [| split].
  - intros Hp. now apply (stress_test_bond_returns fv c y m q base).
  - intros Hp Hm. destruct Hv as (Hfv & Hc & Hy & Hm0).
    unfold stress_test_bond. rewrite Hbase. cbn [bind shocks for_each].
    unfold stress_scenario at 1.
    pose proof (shocked_ytm_floor y (-300)) as Hs.
    rewrite price_bond_discount_case in Hbase |- * by lra.
    rewrite (price_bond_discount_returns fv c (shocked_ytm y (-300)) m) by lra.
    cbn [bind price]. unfold num_div, num_sub, coerce.
    rewrite (price_bond_discount_py _ _ _ _ _ Hbase). cbn [is_np orb].
    unfold py_div.
    destruct (Req_dec_T (value (price base)) 0); [reflexivity | contradiction].
  - intros Hp Hm. destruct Hv as (Hfv & Hc & Hy & Hm0).
    assert (Hn : (1 <= Zfloor (m * 2))%Z) by (apply Zfloor_lub; lra).
    unfold stress_test_bond. rewrite Hbase. cbn [bind shocks for_each].
    unfold stress_scenario at 1.
    pose proof (shocked_ytm_floor y (-300)) as Hs.
    rewrite (price_bond_periodic_result fv c (shocked_ytm y (-300)) m)
      by (lra || assumption).
    rewrite price_bond_periodic_result in Hbase by (lra || assumption).
    injection Hbase as <-.
    cbn [bind price spec_periodic_result] in *.
    unfold num_div. cbn [is_np orb value] in *. unfold np_div.
    destruct (Req_dec_T _ 0); [reflexivity | contradiction].
Qed.

Lemma par_bond_base :
  exists base,
    price_bond 1000 (5 / 100) (5 / 100) 1 = Returns base
    /\ value (price base) <> 0.
Proof.
  destruct (price_bond_periodic_case 1000 (5 / 100) (5 / 100) 1)
    as (base & Hbase & Hp); try lra; [rewrite Zfloor_2; lia |].
  exists base. split; [exact Hbase |].
  rewrite Hp, Zfloor_2. cbn [value].
  assert (1 <= round_nd 4 (spec_price 1000 (5 / 100) (5 / 100) (Z.to_nat 2))).
  { apply round_nd_ge_1. change (Z.to_nat 2) with 2%nat.
    unfold spec_price, spec_cash_flow. cbn [sum_1_to Nat.eqb]. lra. }
  lra.
Qed.

Lemma stress_bondspec_outcome_witness :
  exists base rep,
    exact_in_double 1
    /\ price_bond 1000 (5 / 100) (5 / 100) 1 = Returns base
    /\ value (price base) <> 0
    /\ stress_test_bond 1000 (5 / 100) (5 / 100) 1 1 = Returns rep.
Proof.
  destruct par_bond_base as (base & Hbase & Hp).
  assert (Hq : exact_in_double 1) by (unfold exact_in_double; cbn; lia).
  destruct (proj1 (stress_bondspec_outcome _ _ _ _ 1 base par_bond_valid Hq Hbase)
                  Hp) as [rep H].
  exists base, rep. repeat split; assumption.
Defined.

(** ** [gap_analysis] *)

Lemma gap_analysis_entries (current target : dict R) :
  gap_analysis current target
  = [("yield"%string, gap_entry current target "yield");
     ("duration"%string, gap_entry current target "duration");
     ("volatility"%string, gap_entry current target "volatility")].
Proof. reflexivity. Qed.

Lemma gap_analysis_in (current target : dict R) (metric : string) (e : GapEntry) :
  In (metric, e) (gap_analysis current target) ->
  e = gap_entry current target metric.
Proof.
  rewrite gap_analysis_entries. cbn [In].
  intros [H | [H | [H | []]]]; now injection H as <- <-.
Qed.

Lemma dict_get_missing {V : Type} (d : dict V) (key : string) (default : V) :
  (forall v, ~ In (key, v) d) -> dict_get d key default = default.
Proof.
  induction d as [| [k v] d IH]; intros H; cbn [dict_get]; [reflexivity |].
  destruct (String.eqb k key) eqn:E.
  - apply String.eqb_eq in E. subst k. exfalso. apply (H v). now left.
  - apply IH. intros v' Hin. apply (H v'). now right.
Qed.

Lemma round_nd_2_half : round_nd 2 (1 / 2) = 1 / 2.
Proof. apply (round_nd_exact 2 _ 50). lra. Qed.

(** X13. The direction agrees with the sign of the gap reported, though it
    is taken from the unrounded gap: a reported gap above 0 goes with
    "increase", one below 0 with "decrease", and "on_target" is given only
    when target and current are equal, the reported gap is 0 and the
    on_target flag is set. *)
Theorem gap_direction_consistent (current target : dict R) (metric : string)
        (e : GapEntry) :
  In (metric, e) (gap_analysis current target) ->
  (0 < entry_gap e -> entry_direction e = "increase"%string)
  /\ (entry_gap e < 0 -> entry_direction e = "decrease"%string)
  /\ (entry_direction e = "on_target"%string ->
      entry_target e = entry_current e /\ entry_gap e = 0
      /\ entry_on_target e = true).
Proof.
  intros Hin. rewrite (gap_analysis_in _ _ _ _ Hin). unfold gap_entry.
  cbn [entry_gap entry_direction entry_on_target entry_target entry_current].
  set (g := dict_get target metric 0 - dict_get current metric 0).
  split; [| split].
  - intros Hpos. destruct (Rlt_dec 0 g) as [_ | Hn]; [reflexivity |].
    pose proof (round_nd_nonpos 2 g). lra.
  - intros Hneg. destruct (Rlt_dec 0 g) as [Hp | _].
    + pose proof (round_nd_nonneg 2 g). lra.
    + destruct (Rlt_dec g 0) as [_ | Hn]; [reflexivity |].
      pose proof (round_nd_nonneg 2 g). lra.
  - destruct (Rlt_dec 0 g); [discriminate |].
    destruct (Rlt_dec g 0); [discriminate |]. intros _.
    assert (Hg : g = 0) by lra.
    split; [unfold g in Hg; lra |]. rewrite Hg. split; [apply round_nd_0 |].
    rewrite Rabs_R0. destruct (Rlt_dec 0 (1 / 2)); [reflexivity | lra].
Qed.

Lemma example_gap_yield :
  In ("yield"%string, gap_entry example_current example_target "yield")
     (gap_analysis example_current example_target).
Proof. rewrite gap_analysis_entries. now left. Qed.

Lemma gap_direction_consistent_witness :
  In ("yield"%string, gap_entry example_current example_target "yield")
     (gap_analysis example_current example_target)
  /\ (0 < entry_gap (gap_entry example_current example_target "yield") ->
      entry_direction (gap_entry example_current example_target "yield")
      = "increase"%string).
Proof.
  split; [exact example_gap_yield |].
  apply (gap_direction_consistent example_current example_target "yield" _
           example_gap_yield).
Defined.

(** X14. Swapping the two dicts mirrors the result: for each metric
    current and target change places, the reported gap changes sign,
    "increase" and "decrease" change places, and the on_target flag stays. *)
Theorem gap_analysis_swap (current target : dict R) :
  Forall2
    (fun a b =>
       fst a = fst b
       /\ entry_current (snd b) = entry_target (snd a)
       /\ entry_target (snd b) = entry_current (snd a)
       /\ entry_gap (snd b) = - entry_gap (snd a)
       /\ entry_on_target (snd b) = entry_on_target (snd a)
       /\ (entry_direction (snd a) = "increase"%string ->
           entry_direction (snd b) = "decrease"%string)
       /\ (entry_direction (snd a) = "decrease"%string ->
           entry_direction (snd b) = "increase"%string)
       /\ (entry_direction (snd a) = "on_target"%string ->
           entry_direction (snd b) = "on_target"%string))
    (gap_analysis current target) (gap_analysis target current).
Proof.
  assert (H : forall metric,
            let a := gap_entry current target metric in
            let b := gap_entry target current metric in
            entry_current b = entry_target a
            /\ entry_target b = entry_current a
            /\ entry_gap b = - entry_gap a
            /\ entry_on_target b = entry_on_target a
            /\ (entry_direction a = "increase"%string ->
                entry_direction b = "decrease"%string)
            /\ (entry_direction a = "decrease"%string ->
                entry_direction b = "increase"%string)
            /\ (entry_direction a = "on_target"%string ->
                entry_direction b = "on_target"%string)).
  { intros metric. unfold gap_entry. cbn.
    set (x := dict_get current metric 0). set (t := dict_get target metric 0).
    replace (x - t) with (- (t - x)) by ring.
    rewrite round_nd_opp, Rabs_Ropp.
    repeat split;
      destruct (Rlt_dec 0 (t - x)); destruct (Rlt_dec (t - x) 0);
      destruct (Rlt_dec 0 (- (t - x))); destruct (Rlt_dec (- (t - x)) 0);
      try lra; try discriminate; reflexivity. }
  rewrite !gap_analysis_entries.
  repeat constructor; cbn [fst snd]; apply H.
Qed.

(** X15. The on_target flag and the gap reported can only meet at 0.5:
    when the flag is set the reported gap is at most 0.5 in absolute value
    (0.5 itself included: an unrounded gap of 0.496 shows as 0.5 and is on
    target), and when it is not the reported gap is at least 0.5. *)
Theorem gap_flag_against_reported_gap (current target : dict R)
        (metric : string) (e : GapEntry) :
  In (metric, e) (gap_analysis current target) ->
  (entry_on_target e = true -> Rabs (entry_gap e) <= 1 / 2)
  /\ (entry_on_target e = false -> 1 / 2 <= Rabs (entry_gap e)).
Proof.
  intros Hin. rewrite (gap_analysis_in _ _ _ _ Hin). unfold gap_entry.
  cbn [entry_gap entry_on_target].
  set (g := dict_get target metric 0 - dict_get current metric 0).
  pose proof round_nd_2_half as Hh.
  assert (Hm : round_nd 2 (- (1 / 2)) = - (1 / 2))
    by (rewrite round_nd_opp, Hh; reflexivity).
  destruct (Rlt_dec (Rabs g) (1 / 2)) as [Hlt | Hge]; split;
    try discriminate; intros _.
  - apply Rabs_def2 in Hlt. destruct Hlt as [Hhi Hlo].
    pose proof (round_nd_mono 2 g (1 / 2)).
    pose proof (round_nd_mono 2 (- (1 / 2)) g).
    apply Rabs_le. lra.
  - destruct (Rle_dec 0 g) as [Hpos | Hneg].
    + rewrite Rabs_right in Hge by lra.
      pose proof (round_nd_mono 2 (1 / 2) g).
      rewrite Rabs_right; lra.
    + rewrite Rabs_left in Hge by lra.
      pose proof (round_nd_mono 2 g (- (1 / 2))).
      rewrite Rabs_left; lra.
Qed.

Lemma gap_flag_against_reported_gap_witness :
  In ("yield"%string, gap_entry example_current example_target "yield")
     (gap_analysis example_current example_target)
  /\ (entry_on_target (gap_entry example_current example_target "yield") = false ->
      1 / 2 <= Rabs (entry_gap (gap_entry example_current example_target "yield"))).
Proof.
  split; [exact example_gap_yield |].
  apply (gap_flag_against_reported_gap example_current example_target "yield" _
           example_gap_yield).
Defined.

(** X16. Whatever keys the two dicts hold, the result has the three keys
    yield, duration and volatility, in that order, and a metric that a dict
    does not hold counts as 0 there: missing from both, it is reported with
    current, target and gap 0, "on_target" and the flag set. *)
Theorem gap_analysis_missing_metric (current target : dict R) :
  map fst (gap_analysis current target)
  = ["yield"; "duration"; "volatility"]%string
  /\ forall metric e,
       In (metric, e) (gap_analysis current target) ->
       ((forall v, ~ In (metric, v) current) -> entry_current e = 0)
       /\ ((forall v, ~ In (metric, v) target) -> entry_target e = 0)
       /\ ((forall v, ~ In (metric, v) current) ->
           (forall v, ~ In (metric, v) target) ->
           e = {| entry_current := 0; entry_target := 0; entry_gap := 0;
                  entry_direction := "on_target"; entry_on_target := true |}).
Proof.
  split; [reflexivity |]. intros metric e Hin.
  rewrite (gap_analysis_in _ _ _ _ Hin). unfold gap_entry.
  split; [| split].
  - intros Hc. cbn [entry_current]. now apply dict_get_missing.
  - intros Ht. cbn [entry_target]. now apply dict_get_missing.
  - intros Hc Ht.
    rewrite (dict_get_missing current metric 0 Hc),
            (dict_get_missing target metric 0 Ht).
    replace (0 - 0) with 0 by lra. rewrite round_nd_0, Rabs_R0.
    destruct (Rlt_dec 0 0); [lra |].
    destruct (Rlt_dec 0 (1 / 2)); [reflexivity | lra].
Qed.

Lemma gap_analysis_missing_metric_witness :
  exists e,
    In ("yield"%string, e) (gap_analysis [] example_target)
    /\ entry_current e = 0.
Proof.
  exists (gap_entry [] example_target "yield").
  assert (Hin : In ("yield"%string, gap_entry [] example_target "yield")
                   (gap_analysis [] example_target))
    by (rewrite gap_analysis_entries; now left).
  split; [exact Hin |].
  apply (proj2 (gap_analysis_missing_metric [] example_target) _ _ Hin).
  intros v [].
Defined.

(** ** [run_mvo] *)

Lemma py_sum_sum_arr (l : list R) : py_sum l = sum_arr l.
Proof.
  unfold py_sum, sum_arr.
  assert (H : forall acc, fold_left Rplus l acc = acc + fold_right Rplus 0 l).
  { induction l as [| x l IH]; intros acc; cbn [fold_left fold_right]; [lra |].
    rewrite IH. lra. }
  rewrite H. lra.
Qed.

Lemma dict_set_Forall {V : Type} (P : string * V -> Prop) (d : dict V)
      (key : string) (v : V) :
  Forall P d -> P (key, v) -> Forall P (dict_set d key v).
Proof.
  intros Hd Hv. induction Hd as [| [k v0] d Hk Hd IH]; cbn [dict_set].
  - now constructor.
  - destruct (String.eqb k key) eqn:E.
    + apply String.eqb_eq in E. subst k. now constructor.
    + now constructor.
Qed.

Lemma round_nd_2_ge_1 (x : R) : 1 < x -> 1 <= round_nd 2 x.
Proof. intros H. apply round_nd_ge_1. lra. Qed.

(** Every holding kept is a fund and weighs at least 1 (percent). *)
Lemma raw_allocation_holdings (funds : list string) (w : list R) :
  Forall (fun kv => In (fst kv) funds /\ 1 <= snd kv) (raw_allocation funds w).
Proof.
  unfold raw_allocation.
  assert (H : forall l acc,
            (forall i, In i l -> (i < length funds)%nat) ->
            Forall (fun kv : string * R => In (fst kv) funds /\ 1 <= snd kv) acc ->
            Forall (fun kv : string * R => In (fst kv) funds /\ 1 <= snd kv)
              (fold_left
                 (fun allocation i =>
                    if Rlt_dec (1 / 100) (nth i w 0)
                    then dict_set allocation (nth i funds ""%string)
                                  (round_nd 2 (nth i w 0 * 100))
                    else allocation) l acc)).
  { induction l as [| i l IH]; intros acc Hl Hacc; cbn [fold_left]; [exact Hacc |].
    apply IH; [intros j Hj; apply Hl; now right |].
    destruct (Rlt_dec (1 / 100) (nth i w 0)) as [Hw | _]; [| exact Hacc].
    apply dict_set_Forall; [exact Hacc |]. cbn [fst snd]. split.
    - apply nth_In. apply Hl. now left.
    - apply round_nd_2_ge_1. lra. }
  apply H; [| constructor]. intros i Hi. apply in_seq in Hi. lia.
Qed.

Lemma sum_arr_ge_each (l : list R) (x : R) :
  Forall (fun y => 0 <= y) l -> In x l -> x <= sum_arr l.
Proof.
  intros Hl. induction Hl as [| y l Hy Hl IH]; intros Hin; [contradiction |].
  unfold sum_arr in *. cbn [fold_right].
  assert (0 <= fold_right Rplus 0 l).
  { clear IH Hin. induction Hl as [| z l Hz _ IH]; cbn [fold_right]; lra. }
  destruct Hin as [-> | Hin]; [lra |]. specialize (IH Hin). lra.
Qed.

Lemma normalise_returns (alloc : dict R) (total : R) :
  (alloc = [] \/ total <> 0) ->
  normalise alloc total
  = Returns (map (fun kv => (fst kv, round_nd 2 (snd kv / total * 100))) alloc).
Proof.
  intros H. unfold normalise.
  induction alloc as [| kv alloc IH]; [reflexivity |].
  destruct H as [H | H]; [discriminate |].
  cbn [for_each map]. unfold py_div at 1.
  destruct (Req_dec_T total 0); [contradiction |]. cbn [bind].
  unfold normalise in IH. rewrite IH by now right. reflexivity.
Qed.

Lemma max_sharpe_from_spec (best : Portfolio) (rest : list Portfolio) :
  In (max_sharpe_from best rest) (best :: rest)
  /\ forall p, In p (best :: rest) ->
       p_sharpe p <= p_sharpe (max_sharpe_from best rest).
Proof.
  revert best. induction rest as [| q rest IH]; intros best; cbn [max_sharpe_from].
  - split; [now left |]. intros p [<- | []]. lra.
  - destruct (IH (if Rlt_dec (p_sharpe best) (p_sharpe q) then q else best))
      as [Hin Hmax].
    split.
    + destruct Hin as [Hin | Hin]; [| now right; right].
      rewrite <- Hin. destruct (Rlt_dec (p_sharpe best) (p_sharpe q));
        [right; now left | now left].
    + intros p [<- | [<- | Hp]].
      * apply Rle_trans with
          (p_sharpe (if Rlt_dec (p_sharpe best) (p_sharpe q) then q else best)).
        -- destruct (Rlt_dec (p_sharpe best) (p_sharpe q)); lra.
        -- apply Hmax. now left.
      * apply Rle_trans with
          (p_sharpe (if Rlt_dec (p_sharpe best) (p_sharpe q) then q else best)).
        -- destruct (Rlt_dec (p_sharpe best) (p_sharpe q)); lra.
        -- apply Hmax. now left.
      * apply Hmax. now right.
Qed.

(** What the Monte Carlo loop keeps. *)
Lemma simulations_spec (d : sampler) (n : nat) (returns : list R) (cov : matrix)
      (rf cap : R) (ns : Z) :
  let sim k := simulate returns cov rf (d n k) in
  let kept := simulations d n returns cov rf cap ns in
  (forall p, In p kept <->
             exists k, (k < Z.to_nat ns)%nat /\ p = sim k /\ p_vol p <= cap)
  /\ (length kept <= Z.to_nat ns)%nat.
Proof.
  cbn zeta. unfold simulations.
  set (f := fun results k =>
              if Rle_dec (p_vol (simulate returns cov rf (d n k))) cap
              then results ++ [simulate returns cov rf (d n k)] else results).
  assert (H : forall l acc,
    (forall p, In p (fold_left f l acc) <->
               In p acc \/ exists k, In k l /\ p = simulate returns cov rf (d n k)
                                     /\ p_vol p <= cap)
    /\ (length (fold_left f l acc) <= length acc + length l)%nat).
  { induction l as [| k l IH]; intros acc; cbn [fold_left].
    - split; [| cbn [length]; lia]. intros p. split; [now left |].
      intros [H | (k & [] & _)]. exact H.
    - destruct (IH (f acc k)) as [Hin Hlen]. split.
      + intros p. rewrite Hin. unfold f.
        destruct (Rle_dec (p_vol (simulate returns cov rf (d n k))) cap) as [Hc | Hc].
        * rewrite in_app_iff. cbn [In]. split.
          -- intros [[H | [<- | []]] | (j & Hj & Hp)]; [now left | |].
             ++ right. exists k. split; [now left |]. now split.
             ++ right. exists j. split; [now right | exact Hp].
          -- intros [H | (j & [<- | Hj] & Hp & Hv)]; [left; now left | |].
             ++ left. right. left. now symmetry.
             ++ right. exists j. now repeat split.
        * split.
          -- intros [H | (j & Hj & Hp)]; [now left |].
             right. exists j. split; [now right | exact Hp].
          -- intros [H | (j & [<- | Hj] & Hp & Hv)]; [now left | |].
             ++ subst p. contradiction.
             ++ right. exists j. now repeat split.
      + assert (Hf : (length (f acc k) <= length acc + 1)%nat).
        { unfold f.
          destruct (Rle_dec (p_vol (simulate returns cov rf (d n k))) cap);
            [rewrite length_app; cbn [length] |]; lia. }
        cbn [length]. lia. }
  destruct (H (seq 0 (Z.to_nat ns)) []) as [Hin Hlen]. split.
  - intros p. rewrite Hin. split.
    + intros [[] | (k & Hk & Hp)]. exists k. apply in_seq in Hk.
      split; [lia | exact Hp].
    + intros (k & Hk & Hp). right. exists k. split; [| exact Hp].
      apply in_seq. lia.
  - rewrite length_seq in Hlen. cbn [length] in Hlen. lia.
Qed.

Lemma mvo_results_spec (d : sampler) (fr : dict R) (rf : R) (ns : Z) (rt : string) :
  let results := mvo_results d fr rf ns rt in
  let within k := p_vol (draw_portfolio d fr rf k) <= vol_cap rt in
  (1 <= length results <= Nat.max 1 (Z.to_nat ns))%nat
  /\ ((exists k, (k < Z.to_nat ns)%nat /\ within k) ->
      forall p, In p results <->
                exists k, (k < Z.to_nat ns)%nat /\ p = draw_portfolio d fr rf k
                          /\ within k)
  /\ ((forall k, (k < Z.to_nat ns)%nat -> ~ within k) ->
      results
      = [relaxed (map (fun f => dict_get fr f 0) (map fst fr)) rf]).
Proof.
  cbn zeta. unfold mvo_results, draw_portfolio.
  set (funds := map fst fr).
  set (returns := map (fun f => dict_get fr f 0) funds).
  set (cov := mat_mul_entries _ _).
  destruct (simulations_spec d (length funds) returns cov rf (vol_cap rt) ns)
    as [Hin Hlen].
  destruct (simulations d (length funds) returns cov rf (vol_cap rt) ns)
    as [| p0 kept] eqn:E.
  - split; [cbn [length]; lia |]. split.
    + intros (k & Hk & Hw). exfalso.
      apply (proj2 (Hin (simulate returns cov rf (d (length funds) k)))).
      exists k. now repeat split.
    + reflexivity.
  - split; [cbn [length] in *; lia |]. split.
    + intros _ p. rewrite Hin. split.
      * intros (k & Hk & -> & Hv). exists k. now repeat split.
      * intros (k & Hk & -> & Hv). exists k. now repeat split.
    + intros Hnone. exfalso.
      destruct (proj1 (Hin p0) (or_introl eq_refl)) as (k & Hk & -> & Hv).
      now apply (Hnone k Hk).
Qed.

(** With two funds or more [run_mvo] goes through: the dict it returns. *)
Lemma run_mvo_ok (d : sampler) (fr : dict R) (rf : R) (ns : Z) (rt : string) :
  (2 <= length fr)%nat ->
  exists best,
    In best (mvo_results d fr rf ns rt)
    /\ (forall p, In p (mvo_results d fr rf ns rt) -> p_sharpe p <= p_sharpe best)
    /\ run_mvo d fr rf ns rt
       = Returns (MvoOk {|
           allocation :=
             map (fun kv =>
                    (fst kv,
                     round_nd 2
                       (snd kv
                        / sum_arr (map snd (raw_allocation (map fst fr) (weights best)))
                        * 100)))
                 (raw_allocation (map fst fr) (weights best));
           expected_return := round_nd 2 (p_return best * 100);
           expected_vol := round_nd 2 (p_vol best * 100);
           sharpe_ratio := round_nd 4 (p_sharpe best);
           mvo_risk_free_rate := round_nd 2 (rf * 100);
           mvo_n_simulations := ns;
           mvo_risk_tolerance := rt;
           portfolios_evaluated := length (mvo_results d fr rf ns rt)
         |}).
Proof.
  intros Hn.
  pose proof (mvo_results_spec d fr rf ns rt) as [[Hlen _] _].
  unfold run_mvo. cbv zeta. rewrite length_map.
  replace (length fr <? 2)%nat with false by (symmetry; apply Nat.ltb_ge; lia).
  rewrite <- (length_map fst fr).
  match goal with
  | |- context [max_sharpe ?r] => change r with (mvo_results d fr rf ns rt)
  end.
  destruct (mvo_results d fr rf ns rt) as [| p0 rest] eqn:E;
    [cbn [length] in Hlen; lia |].
  cbn [max_sharpe bind].
  destruct (max_sharpe_from_spec p0 rest) as [Hin Hmax].
  exists (max_sharpe_from p0 rest). split; [exact Hin |]. split; [exact Hmax |].
  rewrite py_sum_sum_arr.
  rewrite normalise_returns; [reflexivity |].
  pose proof (raw_allocation_holdings (map fst fr)
                (weights (max_sharpe_from p0 rest))) as Hall.
  destruct (raw_allocation (map fst fr) (weights (max_sharpe_from p0 rest)))
    as [| kv alloc]; [now left |].
  right. apply Rgt_not_eq.
  assert (Hge : snd kv <= sum_arr (map snd (kv :: alloc))).
  { apply sum_arr_ge_each; [| now left].
    apply Forall_map. revert Hall. apply Forall_impl. intros a [_ Ha]. lra. }
  apply Forall_inv in Hall. lra.
Qed.

Lemma run_mvo_inv (d : sampler) (fr : dict R) (rf : R) (ns : Z) (rt : string)
      (r : MvoResult) :
  run_mvo d fr rf ns rt = Returns (MvoOk r) ->
  (2 <= length fr)%nat
  /\ exists best,
       In best (mvo_results d fr rf ns rt)
       /\ (forall p, In p (mvo_results d fr rf ns rt) ->
                     p_sharpe p <= p_sharpe best)
       /\ allocation r
          = map (fun kv =>
                   (fst kv,
                    round_nd 2
                      (snd kv
                       / sum_arr (map snd (raw_allocation (map fst fr) (weights best)))
                       * 100)))
                (raw_allocation (map fst fr) (weights best))
       /\ expected_return r = round_nd 2 (p_return best * 100)
       /\ expected_vol r = round_nd 2 (p_vol best * 100)
       /\ sharpe_ratio r = round_nd 4 (p_sharpe best)
       /\ portfolios_evaluated r = length (mvo_results d fr rf ns rt).
Proof.
  intros H.
  assert (Hn : (2 <= length fr)%nat).
  { destruct (Nat.ltb (length fr) 2) eqn:E; [| apply Nat.ltb_ge in E; lia].
    unfold run_mvo in H. rewrite length_map, E in H. discriminate. }
  split; [exact Hn |].
  destruct (run_mvo_ok d fr rf ns rt Hn) as (best & Hin & Hmax & Hrun).
  rewrite Hrun in H. injection H as <-.
  exists best. cbn. repeat split; assumption.
Qed.

Lemma example_funds_run (ns : Z) (rt : string) :
  exists r, run_mvo equal_sampler example_funds (65 / 1000) ns rt
            = Returns (MvoOk r).
Proof.
  destruct (run_mvo_ok equal_sampler example_funds (65 / 1000) ns rt)
    as (best & _ & _ & H); [cbn [example_funds length]; lia |].
  eexists. exact H.
Qed.

(** X17. [run_mvo] answers with the error dict when it is given fewer than
    two funds, whatever the other arguments, and otherwise never fails:
    the selection never meets an empty list and the normalisation never
    divides by zero.  The result echoes n_simulations and risk_tolerance,
    and portfolios_evaluated is at least 1 and at most
    max(1, n_simulations). *)
Theorem run_mvo_never_fails (d : sampler) (fr : dict R) (rf : R) (ns : Z)
        (rt : string) :
  ((length fr < 2)%nat ->
   run_mvo d fr rf ns rt
   = Returns (MvoError "Need at least 2 funds for optimization"))
  /\ ((2 <= length fr)%nat ->
      exists r,
        run_mvo d fr rf ns rt = Returns (MvoOk r)
        /\ (1 <= portfolios_evaluated r <= Nat.max 1 (Z.to_nat ns))%nat
        /\ mvo_n_simulations r = ns
        /\ mvo_risk_tolerance r = rt).
Proof.
  split.
  - intros Hn. unfold run_mvo. rewrite length_map.
    now replace (length fr <? 2)%nat with true by (symmetry; apply Nat.ltb_lt; lia).
  - intros Hn.
    destruct (run_mvo_ok d fr rf ns rt Hn) as (best & _ & _ & Hrun).
    pose proof (mvo_results_spec d fr rf ns rt) as [Hlen _].
    eexists. split; [exact Hrun |]. cbn. repeat split; apply Hlen.
Qed.

Lemma run_mvo_never_fails_witness :
  exists r,
    run_mvo equal_sampler example_funds (65 / 1000) 10000 "Medium"
    = Returns (MvoOk r)
    /\ (1 <= portfolios_evaluated r <= Nat.max 1 (Z.to_nat 10000))%nat.
Proof.
  assert (Hn : (2 <= length example_funds)%nat) by (cbn [example_funds length]; lia).
  destruct (proj2 (run_mvo_never_fails equal_sampler example_funds (65 / 1000)
                     10000 "Medium") Hn) as (r & Hr & Hp & _).
  exists r. split; assumption.
Defined.

(** X18. The Sharpe ratio returned is the best on offer: no draw of the
    simulation whose volatility is within the cap has a Sharpe ratio that
    rounds to more than sharpe_ratio. *)
Theorem run_mvo_best_sharpe (d : sampler) (fr : dict R) (rf : R) (ns : Z)
        (rt : string) (r : MvoResult) (k : nat) :
  run_mvo d fr rf ns rt = Returns (MvoOk r) ->
  (k < Z.to_nat ns)%nat ->
  p_vol (draw_portfolio d fr rf k) <= vol_cap rt ->
  round_nd 4 (p_sharpe (draw_portfolio d fr rf k)) <= sharpe_ratio r.
Proof.
  intros H Hk Hv.
  destruct (run_mvo_inv _ _ _ _ _ _ H)
    as (_ & best & _ & Hmax & _ & _ & _ & Hs & _).
  rewrite Hs. apply round_nd_mono, Hmax.
  pose proof (mvo_results_spec d fr rf ns rt) as (_ & Hin & _).
  apply Hin; exists k; now repeat split.
Qed.

(** X19. The volatility returned respects the cap of the risk tolerance
    whenever some draw does: expected_vol is then at most the cap in
    percent.  When no draw does, the equal-weight portfolio is returned
    with expected_vol 15.0 whatever the cap (for "Low" the cap is 12), and
    portfolios_evaluated is 1. *)
Theorem run_mvo_volatility_cap (d : sampler) (fr : dict R) (rf : R) (ns : Z)
        (rt : string) (r : MvoResult) :
  run_mvo d fr rf ns rt = Returns (MvoOk r) ->
  ((exists k, (k < Z.to_nat ns)%nat
              /\ p_vol (draw_portfolio d fr rf k) <= vol_cap rt) ->
   expected_vol r <= round_nd 2 (vol_cap rt * 100))
  /\ ((forall k, (k < Z.to_nat ns)%nat ->
                 ~ p_vol (draw_portfolio d fr rf k) <= vol_cap rt) ->
      expected_vol r = 15 /\ portfolios_evaluated r = 1%nat)
  /\ vol_cap "Low" = 12 / 100.
Proof.
  intros H.
  destruct (run_mvo_inv _ _ _ _ _ _ H)
    as (_ & best & Hbest & _ & _ & _ & Hv & _ & Hp).
  pose proof (mvo_results_spec d fr rf ns rt) as (_ & Hsome & Hnone).
  split; [| split].
  - intros Hex. rewrite Hv. apply round_nd_mono.
    apply (Hsome Hex) in Hbest. destruct Hbest as (k & _ & -> & Hw).
    apply Rmult_le_compat_r; [lra | exact Hw].
  - intros Hall. rewrite Hp, Hv. rewrite (Hnone Hall) in Hbest |- *.
    destruct Hbest as [<- | []]. cbn [relaxed p_vol length]. split; [| reflexivity].
    replace (15 / 100 * 100) with (IZR 15) by lra. apply round_nd_IZR.
  - reflexivity.
Qed.

Lemma run_mvo_volatility_cap_witness :
  exists r,
    run_mvo equal_sampler example_funds (65 / 1000) 0 "Low" = Returns (MvoOk r)
    /\ expected_vol r = 15 /\ portfolios_evaluated r = 1%nat.
Proof.
  destruct (example_funds_run 0 "Low") as [r Hr].
  exists r. split; [exact Hr |].
  apply (proj1 (proj2 (run_mvo_volatility_cap _ _ _ _ _ r Hr))).
  intros k Hk. cbn in Hk. lia.
Defined.

Lemma clip_inside (x lo hi : R) : lo <= x <= hi -> clip x lo hi = x.
Proof.
  intros [Hlo Hhi]. unfold clip.
  rewrite Rmax_left by exact Hlo. now apply Rmin_left.
Qed.

Lemma sqrt_le_bound (x y : R) : 0 <= y -> x <= y * y -> sqrt x <= y.
Proof.
  intros Hy Hx. rewrite <- (sqrt_square y Hy). now apply sqrt_le_1_alt.
Qed.

(** The first draw of the example: two funds at equal weights, with a
    volatility near 16%. *)
Lemma example_draw_vol :
  p_vol (draw_portfolio equal_sampler example_funds (65 / 1000) 0) <= 20 / 100.
Proof.
  unfold draw_portfolio.
  change (map fst example_funds)
    with ["SBI Bluechip Fund"%string; "HDFC Gilt Fund"%string].
  change (map (fun f => dict_get example_funds f 0)
              ["SBI Bluechip Fund"%string; "HDFC Gilt Fund"%string])
    with [12 / 100; 7 / 100].
  change (correlation ["SBI Bluechip Fund"%string; "HDFC Gilt Fund"%string])
    with [[1; 35 / 100]; [35 / 100; 1]].
  unfold volatilities. cbn [map].
  rewrite !Rabs_right by lra. rewrite !clip_inside by lra.
  unfold simulate, equal_sampler. cbn [p_vol length repeat INR].
  apply sqrt_le_bound; [lra |].
  unfold dot, vec_mat, mat_mul_entries, outer, sum_arr.
  cbn [map zip_with length seq nth fold_right].
  unfold dot, sum_arr. cbn [zip_with fold_right]. lra.
Qed.

Lemma run_mvo_best_sharpe_witness :
  exists r,
    run_mvo equal_sampler example_funds (65 / 1000) 1 "Medium" = Returns (MvoOk r)
    /\ round_nd 4 (p_sharpe (draw_portfolio equal_sampler example_funds
                               (65 / 1000) 0))
       <= sharpe_ratio r.
Proof.
  destruct (example_funds_run 1 "Medium") as [r Hr].
  exists r. split; [exact Hr |].
  apply (run_mvo_best_sharpe _ _ _ _ _ r 0%nat Hr).
  - cbn. lia.
  - exact example_draw_vol.
Defined.

Lemma round_nd_2_error (x : R) : Rabs (round_nd 2 x - x) <= 5 / 1000.
Proof.
  unfold round_nd. pose proof (round_half_even_bounds (x * 10 ^ 2)) as [Hlo Hhi].
  apply Rabs_le. lra.
Qed.

Lemma Rabs_le_bounds (x a : R) : Rabs x <= a -> - a <= x <= a.
Proof. unfold Rabs. destruct (Rcase_abs x); lra. Qed.

Lemma sum_round_error (T : R) (l : list R) :
  Rabs (sum_arr (map (fun v => round_nd 2 (v / T * 100)) l)
        - sum_arr (map (fun v => v / T * 100) l))
  <= 5 / 1000 * INR (length l).
Proof.
  unfold sum_arr. induction l as [| v l IH].
  - cbn. rewrite Rminus_diag, Rabs_R0. lra.
  - cbn [map fold_right length]. rewrite S_INR.
    pose proof (round_nd_2_error (v / T * 100)) as Hv.
    apply Rabs_le. apply Rabs_le_bounds in IH, Hv. lra.
Qed.

Lemma sum_arr_scaled (T : R) (l : list R) :
  sum_arr (map (fun v => v / T * 100) l) = sum_arr l / T * 100.
Proof.
  unfold sum_arr. induction l as [| v l IH]; cbn [map fold_right].
  - unfold Rdiv. ring.
  - rewrite IH. unfold Rdiv. ring.
Qed.

Lemma run_mvo_allocation_bound (d : sampler) (fr : dict R) (rf : R) (ns : Z)
        (rt : string) (r : MvoResult) :
  run_mvo d fr rf ns rt = Returns (MvoOk r) ->
  Forall (fun kv => In (fst kv) (map fst fr) /\ 0 <= snd kv <= 100)
         (allocation r)
  /\ (allocation r <> [] ->
      Rabs (sum_arr (map snd (allocation r)) - 100)
      <= 5 / 1000 * INR (length (allocation r))).
Proof.
  intros H.
  destruct (run_mvo_inv _ _ _ _ _ _ H) as (_ & best & _ & _ & Ha & _).
  rewrite Ha.
  pose proof (raw_allocation_holdings (map fst fr) (weights best)) as Hraw.
  set (raw := raw_allocation (map fst fr) (weights best)) in *.
  set (T := sum_arr (map snd raw)).
  assert (Hnn : Forall (fun y => 0 <= y) (map snd raw)).
  { apply Forall_map. revert Hraw. apply Forall_impl. intros a [_ Ha1]. lra. }
  split.
  - apply Forall_map. rewrite Forall_forall in Hraw |- *.
    intros kv Hin. destruct (Hraw kv Hin) as [Hf Hv]. cbn [fst snd].
    split; [exact Hf |].
    assert (HT : snd kv <= T) by (apply sum_arr_ge_each; [exact Hnn | now apply in_map]).
    assert (HTi : 0 < / T) by (apply Rinv_0_lt_compat; lra).
    assert (Hr1 : snd kv * / T <= 1).
    { apply Rmult_le_reg_r with T; [lra |].
      rewrite Rmult_assoc, Rinv_l by lra. lra. }
    split.
    + apply round_nd_nonneg. unfold Rdiv. nra.
    + apply Rle_trans with (round_nd 2 100);
        [apply round_nd_mono; unfold Rdiv; nra
        | rewrite (round_nd_IZR 2 100); lra].
  - intros Hne.
    assert (Hmap : map snd (map (fun kv : string * R =>
                                   (fst kv, round_nd 2 (snd kv / T * 100))) raw)
                   = map (fun v => round_nd 2 (v / T * 100)) (map snd raw))
      by (rewrite !map_map; reflexivity).
    rewrite Hmap, length_map, <- (length_map snd raw).
    pose proof (sum_round_error T (map snd raw)) as Herr.
    rewrite sum_arr_scaled in Herr. fold T in Herr.
    replace (T / T * 100) with 100 in Herr; [exact Herr |].
    assert (T <> 0); [| field; assumption].
    destruct raw as [| kv raw']; [now contradiction Hne |].
    apply Forall_inv in Hraw.
    assert (snd kv <= T) by (apply sum_arr_ge_each; [exact Hnn | now left]).
    lra.
Qed.

(** X20. The allocation returned holds only funds that were given; every
    weight is between 0 and 100; and the weights add up to 100 within
    0.005 per holding, the rounding of each one: the normalisation brings
    the total back to 100, not always exactly. *)
Theorem run_mvo_allocation (d : sampler) (fr : dict R) (rf : R) (ns : Z)
        (rt : string) (r : MvoResult) :
  run_mvo d fr rf ns rt = Returns (MvoOk r) ->
  Forall (fun kv => In (fst kv) (map fst fr) /\ 0 <= snd kv <= 100)
         (allocation r)
  /\ (allocation r <> [] ->
      Rabs (sum_arr (map snd (allocation r)) - 100)
      <= 5 / 1000 * INR (length (allocation r))).
Proof. apply run_mvo_allocation_bound. Qed.

Lemma run_mvo_allocation_witness :
  exists r,
    run_mvo equal_sampler example_funds (65 / 1000) 1 "Medium" = Returns (MvoOk r)
    /\ Forall (fun kv => In (fst kv) (map fst example_funds) /\ 0 <= snd kv <= 100)
              (allocation r).
Proof.
  destruct (example_funds_run 1 "Medium") as [r Hr].
  exists r. split; [exact Hr |].
  exact (proj1 (run_mvo_allocation _ _ _ _ _ r Hr)).
Defined.

(** ** The presets *)

Lemma presets_entries :
  INDIAN_BOND_PRESETS
  = [("GOI_10Y"%string,
      mkPreset "GOI 7.26% 2033 (10Y Benchmark G-Sec)"
               1000 (726 / 10000) (712 / 10000) 10);
     ("NHAI_PSU"%string,
      mkPreset "NHAI 7.35% 2031 (PSU Bond)"
               1000 (735 / 10000) (748 / 10000) 8);
     ("HDFC_CORP"%string,
      mkPreset "HDFC Bank 8.10% 2028 (Corporate AAA)"
               1000 (810 / 10000) (825 / 10000) 5);
     ("TBILL_91"%string,
      mkPreset "91-Day T-Bill (Zero Coupon)"
               1000 0 (685 / 10000) (1 / 4))].
Proof. reflexivity. Qed.

Lemma spec_price_ge_principal (fv c y : R) (N : nat) :
  0 < fv -> 0 <= c -> 0 < 1 + y / 2 -> (1 <= N)%nat ->
  fv / (1 + y / 2) ^ N <= spec_price fv c y N.
Proof.
  intros Hfv Hc Hq HN. rewrite spec_price_split by exact HN.
  assert (0 <= sum_1_to (fun i => fv * c / 2 / (1 + y / 2) ^ i) N); [| lra].
  apply sum_1_to_nonneg. intros i _. apply pv_term_nonneg; [| exact Hq].
  assert (0 <= fv * c) by (apply Rmult_le_pos; lra). lra.
Qed.

(** A BondSpec with whole years to maturity and a principal whose present
    value is at least 1 is stress-tested without failure. *)
Lemma stress_returns_periodic (fv c y : R) (years : Z) (q : Z) :
  0 < fv -> 0 <= c -> -1 < y -> (1 <= years)%Z ->
  1 <= fv / (1 + y / 2) ^ Z.to_nat (years * 2) ->
  n_periods_of (IZR years) = (years * 2)%Z
  /\ (exists r, price_bond fv c y (IZR years) = Returns r /\ 1 <= value (price r))
  /\ exists rep, stress_test_bond fv c y (IZR years) q = Returns rep.
Proof.
  intros Hfv Hc Hy Hyears Hpv.
  assert (Hm : 1 <= IZR years) by now apply IZR_le.
  assert (Hfl : Zfloor (IZR years * 2) = (years * 2)%Z).
  { replace (IZR years * 2) with (IZR (years * 2)) by (rewrite mult_IZR; lra).
    apply ZfloorZ. }
  assert (Hn : n_periods_of (IZR years) = (years * 2)%Z)
    by (rewrite n_periods_floor by lra; exact Hfl).
  destruct (price_bond_periodic_case fv c y (IZR years)) as (r & Hr & Hp);
    try lra; [rewrite Hfl; lia |].
  assert (Hprice : 1 <= value (price r)).
  { rewrite Hp, Hfl. cbn [value]. apply round_nd_ge_1.
    apply Rle_trans with (fv / (1 + y / 2) ^ Z.to_nat (years * 2)); [exact Hpv |].
    apply spec_price_ge_principal; try lra. lia. }
  split; [exact Hn |]. split; [now exists r |].
  apply (stress_test_bond_returns fv c y (IZR years) q r);
    [unfold valid_spec; repeat split; lra | exact Hr | lra].
Qed.

Lemma stress_returns_discount (fv c y m : R) (q : Z) :
  1 <= fv / (1 + y) -> 0 <= c -> 0 <= y -> 0 < m < 1 / 2 ->
  n_periods_of m = 0%Z
  /\ (exists r, price_bond fv c y m = Returns r /\ 1 <= value (price r))
  /\ exists rep, stress_test_bond fv c y m q = Returns rep.
Proof.
  intros Hpv Hc Hy Hm.
  assert (Hfv : 0 < fv).
  { assert (0 < / (1 + y)) by (apply Rinv_0_lt_compat; lra).
    unfold Rdiv in Hpv. nra. }
  assert (Hr : price_bond fv c y m = Returns _)
    by (rewrite price_bond_discount_case by lra;
        apply price_bond_discount_returns; lra).
  assert (Hprice : 1 <= round_nd 4 (fv / Rpower (1 + y) m)).
  { apply round_nd_ge_1. apply Rle_trans with (fv / (1 + y)); [exact Hpv |].
    pose proof (Rpower_pos (1 + y) m).
    assert (Rpower (1 + y) m <= 1 + y).
    { rewrite <- (Rpower_1 (1 + y)) at 2 by lra. apply Rle_Rpower; lra. }
    unfold Rdiv. apply Rmult_le_compat_l; [lra |].
    apply Rinv_le_contravar; assumption. }
  split; [apply n_periods_discount; lra |].
  split; [eexists; split; [exact Hr | exact Hprice] |].
  apply (stress_test_bond_returns fv c y m q _ ltac:(unfold valid_spec; lra) Hr).
  cbn [price value]. lra.
Qed.

(** X21. Every preset of INDIAN_BOND_PRESETS is a BondSpec that prices,
    at 1 or more, and stress-tests without failure for a quantity that a
    double holds exactly.  The three bonds run 20, 16 and 10 semi-annual
    periods; the 91-day T-Bill is the one preset with no period, priced as
    a discount instrument. *)
Theorem presets_are_priced (q : Z) (key : string) (p : Preset) :
  In (key, p) INDIAN_BOND_PRESETS -> exact_in_double q ->
  valid_spec (preset_face_value p) (preset_coupon_rate p) (preset_ytm p)
             (preset_maturity_years p)
  /\ (exists r,
        price_bond (preset_face_value p) (preset_coupon_rate p) (preset_ytm p)
                   (preset_maturity_years p) = Returns r
        /\ 1 <= value (price r))
  /\ (exists rep,
        stress_test_bond (preset_face_value p) (preset_coupon_rate p)
                         (preset_ytm p) (preset_maturity_years p) q
        = Returns rep)
  /\ map (fun kv => n_periods_of (preset_maturity_years (snd kv)))
         INDIAN_BOND_PRESETS
     = [20; 16; 10; 0]%Z.
Proof.
  intros Hin _.
  pose proof (stress_returns_periodic 1000 (726 / 10000) (712 / 10000) 10 q) as H1.
  pose proof (stress_returns_periodic 1000 (735 / 10000) (748 / 10000) 8 q) as H2.
  pose proof (stress_returns_periodic 1000 (810 / 10000) (825 / 10000) 5 q) as H3.
  pose proof (stress_returns_discount 1000 0 (685 / 10000) (1 / 4) q) as H4.
  change (Z.to_nat (10 * 2)) with 20%nat in H1.
  change (Z.to_nat (8 * 2)) with 16%nat in H2.
  change (Z.to_nat (5 * 2)) with 10%nat in H3.
  destruct H1 as (N1 & P1 & S1); try lra; try lia.
  destruct H2 as (N2 & P2 & S2); try lra; try lia.
  destruct H3 as (N3 & P3 & S3); try lra; try lia.
  destruct H4 as (N4 & P4 & S4); try lra.
  rewrite presets_entries in *. cbn [map snd preset_maturity_years].
  rewrite N1, N2, N3, N4.
  destruct Hin as [H | [H | [H | [H | []]]]]; injection H as <- <-;
    cbn [preset_face_value preset_coupon_rate preset_ytm preset_maturity_years];
    (split; [unfold valid_spec; lra |]);
    (split; [assumption |]); (split; [assumption | reflexivity]).
Qed.

Lemma presets_are_priced_witness :
  exists p rep,
    In ("TBILL_91"%string, p) INDIAN_BOND_PRESETS
    /\ exact_in_double 1
    /\ stress_test_bond (preset_face_value p) (preset_coupon_rate p)
                        (preset_ytm p) (preset_maturity_years p) 1
       = Returns rep.
Proof.
  assert (Hin : In ("TBILL_91"%string,
                    mkPreset "91-Day T-Bill (Zero Coupon)"
                             1000 0 (685 / 10000) (1 / 4))
                   INDIAN_BOND_PRESETS)
    by (rewrite presets_entries; cbn [In]; tauto).
  assert (Hq : exact_in_double 1) by (unfold exact_in_double; cbn; lia).
  destruct (presets_are_priced 1 _ _ Hin Hq) as (_ & _ & (rep & Hrep) & _).
  eexists. exists rep. split; [exact Hin |]. split; [exact Hq | exact Hrep].
Defined.

(** ** The fund tables *)

Lemma fund_schemes_entries :
  FUND_SCHEMES
  = [("119598", "SBI Bluechip Fund");
     ("120503", "Axis Long Term Equity Fund");
     ("118989", "Axis Bluechip Fund");
     ("120465", "HDFC Mid-Cap Opportunities");
     ("125497", "SBI Small Cap Fund");
     ("120828", "Nippon India Small Cap Fund");
     ("112090", "Parag Parikh Flexi Cap Fund");
     ("118778", "UTI Flexi Cap Fund");
     ("119027", "SBI Magnum Gilt Fund");
     ("119775", "HDFC Gilt Fund");
     ("119247", "HDFC Short Term Debt Fund");
     ("119568", "SBI Liquid Fund");
     ("120594", "HDFC Liquid Fund");
     ("101206", "HDFC Balanced Advantage Fund");
     ("118701", "ICICI Pru Balanced Advantage");
     ("118769", "Mirae Asset ELSS Fund");
     ("120716", "UTI Nifty 50 Index Fund");
     ("120684", "HDFC Index Fund Nifty 50")]%string.
Proof. vm_compute. reflexivity. Qed.

Lemma not_in_by_eqb (name : string) (l : list string) :
  forallb (fun x => negb (String.eqb x name)) l = true -> ~ In name l.
Proof.
  intros H Hin. rewrite forallb_forall in H. specialize (H name Hin).
  now rewrite String.eqb_refl in H.
Qed.

(** X22. FUND_SCHEMES is written with twenty pairs but holds eighteen: the
    scheme code 120503 is written three times, and the dict keeps it once,
    in second place, with the last name, Axis Long Term Equity Fund.  The
    loop over its items therefore never downloads HDFC Top 100 Fund nor
    Kotak Emerging Equity Fund, though both have a category in
    CATEGORY_MAP. *)
Theorem fund_schemes_duplicate_code :
  length FUND_SCHEMES_display = 20%nat
  /\ length FUND_SCHEMES = 18%nat
  /\ nth_error FUND_SCHEMES 1
     = Some ("120503"%string, "Axis Long Term Equity Fund"%string)
  /\ ~ In "HDFC Top 100 Fund"%string (map snd FUND_SCHEMES)
  /\ ~ In "Kotak Emerging Equity Fund"%string (map snd FUND_SCHEMES)
  /\ category_of "HDFC Top 100 Fund" = ("Large Cap"%string, 0%Z)
  /\ category_of "Kotak Emerging Equity Fund" = ("Mid Cap"%string, 1%Z).
Proof.
  rewrite fund_schemes_entries.
  repeat split; try reflexivity; apply not_in_by_eqb; reflexivity.
Qed.

(** X23. Every fund that FUND_SCHEMES names has its category in
    CATEGORY_MAP: for the names the download can write, the lookup with the
    default ("Unknown", 99) never falls back on the default. *)
Theorem fund_names_have_category (code name : string) :
  In (code, name) FUND_SCHEMES ->
  snd (category_of name) <> 99%Z
  /\ fst (category_of name) <> "Unknown"%string.
Proof.
  rewrite fund_schemes_entries. cbn [In].
  intros H.
  repeat (destruct H as [H | H];
          [injection H as <- <-; split; vm_compute; discriminate |]).
  contradiction.
Qed.

Lemma fund_names_have_category_witness :
  In ("119568"%string, "SBI Liquid Fund"%string) FUND_SCHEMES
  /\ snd (category_of "SBI Liquid Fund") <> 99%Z.
Proof.
  assert (Hin : In ("119568"%string, "SBI Liquid Fund"%string) FUND_SCHEMES)
    by (rewrite fund_schemes_entries; cbn [In]; tauto).
  split; [exact Hin |].
  exact (proj1 (fund_names_have_category _ _ Hin)).
Defined.

(** ** The weights of the portfolio selected *)

Lemma some_weight_large (w : list R) (c : R) :
  w <> [] -> INR (length w) * c <= sum_arr w ->
  exists i, (i < length w)%nat /\ c <= nth i w 0.
Proof.
  induction w as [| x w IH]; intros Hne Hsum; [contradiction |].
  destruct (Rle_dec c x) as [Hx | Hx].
  - exists 0%nat. cbn [length nth]. split; [lia | exact Hx].
  - unfold sum_arr in *. cbn [fold_right] in Hsum.
    change (length (x :: w)) with (S (length w)) in Hsum.
    rewrite S_INR in Hsum.
    destruct w as [| x' w'].
    + cbn [length fold_right INR] in Hsum. lra.
    + destruct IH as (i & Hi & Hc); [discriminate | lra |].
      exists (S i). cbn [length nth] in *. split; [lia | exact Hc].
Qed.

Lemma sum_arr_repeat (x : R) (n : nat) : sum_arr (repeat x n) = INR n * x.
Proof.
  unfold sum_arr. induction n as [| n IH]; [cbn; lra |].
  cbn [repeat fold_right]. rewrite IH, S_INR. lra.
Qed.

Lemma relaxed_weights (returns : list R) (rf : R) :
  weights (relaxed returns rf)
  = repeat (1 / INR (length returns)) (length returns).
Proof.
  unfold relaxed. cbn [weights].
  generalize (INR (length returns)). intros c.
  induction (length returns) as [| k IH]; [reflexivity |].
  cbn [repeat map]. now rewrite IH.
Qed.

Lemma relaxed_simplex (returns : list R) (rf : R) :
  (1 <= length returns)%nat ->
  simplex (length returns) (weights (relaxed returns rf)).
Proof.
  intros Hn. rewrite relaxed_weights.
  assert (Hpos : 0 < INR (length returns)) by (apply lt_0_INR; lia).
  repeat split.
  - apply repeat_length.
  - apply Forall_forall. intros x Hx. apply repeat_spec in Hx. subst x.
    left. apply Rdiv_lt_0_compat; lra.
  - rewrite sum_arr_repeat. field. lra.
Qed.

Lemma dict_set_nonempty {V : Type} (d : dict V) (key : string) (v : V) :
  dict_set d key v <> [].
Proof.
  destruct d as [| [k v0] d]; cbn [dict_set]; [discriminate |].
  destruct (String.eqb k key); discriminate.
Qed.

Lemma raw_allocation_nonempty (funds : list string) (w : list R) (i : nat) :
  (i < length funds)%nat -> 1 / 100 < nth i w 0 -> raw_allocation funds w <> [].
Proof.
  intros Hi Hw. unfold raw_allocation.
  set (f := fun (allocation : dict R) (j : nat) =>
              if Rlt_dec (1 / 100) (nth j w 0)
              then dict_set allocation (nth j funds ""%string)
                            (round_nd 2 (nth j w 0 * 100))
              else allocation).
  assert (Hkeep : forall l acc, acc <> [] -> fold_left f l acc <> []).
  { induction l as [| j l IH]; intros acc Hacc; cbn [fold_left]; [exact Hacc |].
    apply IH. unfold f. destruct (Rlt_dec (1 / 100) (nth j w 0));
      [apply dict_set_nonempty | exact Hacc]. }
  assert (Hhit : forall l acc, In i l -> fold_left f l acc <> []).
  { induction l as [| j l IH]; intros acc Hin; [contradiction |].
    cbn [fold_left]. destruct Hin as [-> | Hin]; [| now apply IH].
    apply Hkeep. unfold f.
    destruct (Rlt_dec (1 / 100) (nth i w 0)); [apply dict_set_nonempty | contradiction]. }
  apply Hhit. apply in_seq. lia.
Qed.

Lemma mvo_results_origin (d : sampler) (fr : dict R) (rf : R) (ns : Z)
      (rt : string) (p : Portfolio) :
  In p (mvo_results d fr rf ns rt) ->
  (exists k, p = draw_portfolio d fr rf k)
  \/ p = relaxed (map (fun f => dict_get fr f 0) (map fst fr)) rf.
Proof.
  unfold mvo_results, draw_portfolio. cbv zeta.
  set (funds := map fst fr).
  set (returns := map (fun f => dict_get fr f 0) funds).
  set (cov := mat_mul_entries _ _).
  destruct (simulations_spec d (length funds) returns cov rf (vol_cap rt) ns)
    as [Hin _].
  destruct (simulations d (length funds) returns cov rf (vol_cap rt) ns)
    as [| p0 kept].
  - intros [<- | []]. now right.
  - intros Hp. apply Hin in Hp. destruct Hp as (k & _ & -> & _).
    left. now exists k.
Qed.

(** X24. When the draws are Dirichlet samples (n weights, none negative,
    of sum 1) and there are between 2 and 99 funds, the allocation returned
    is never empty, so its weights do add up to 100 within 0.005 per
    holding: some fund carries at least 1/n of the portfolio selected,
    which is above the 0.01 threshold. *)
Theorem run_mvo_allocation_nonempty (d : sampler) (fr : dict R) (rf : R)
        (ns : Z) (rt : string) (r : MvoResult) :
  (forall k, simplex (length fr) (d (length fr) k)) ->
  (length fr < 100)%nat ->
  run_mvo d fr rf ns rt = Returns (MvoOk r) ->
  allocation r <> []
  /\ Rabs (sum_arr (map snd (allocation r)) - 100)
     <= 5 / 1000 * INR (length (allocation r)).
Proof.
  intros Hd Hlt H.
  destruct (run_mvo_inv _ _ _ _ _ _ H) as (Hn & best & Hbest & _ & Ha & _).
  assert (Hne : allocation r <> []).
  { assert (Hs : simplex (length fr) (weights best)).
    { destruct (mvo_results_origin _ _ _ _ _ _ Hbest) as [[k ->] | ->].
      - unfold draw_portfolio, simulate. cbn [weights].
        rewrite length_map. apply Hd.
      - pose proof (relaxed_simplex
                      (map (fun f => dict_get fr f 0) (map fst fr)) rf) as Hr.
        rewrite !length_map in Hr. apply Hr. lia. }
    destruct Hs as (Hlen & Hpos & Hsum).
    assert (Hn0 : 0 < INR (length fr)) by (apply lt_0_INR; lia).
    destruct (some_weight_large (weights best) (1 / INR (length fr)))
      as (i & Hi & Hw).
    - intros E. rewrite E in Hlen. cbn [length] in Hlen. lia.
    - rewrite Hlen, Hsum. right. field. lra.
    - rewrite Ha. intros E. apply map_eq_nil in E. revert E.
      apply (raw_allocation_nonempty _ _ i); [rewrite length_map; lia |].
      apply Rlt_le_trans with (1 / INR (length fr)); [| exact Hw].
      assert (INR (length fr) < 100).
      { apply lt_INR in Hlt. rewrite (INR_IZR_INZ 100) in Hlt. exact Hlt. }
      unfold Rdiv. rewrite !Rmult_1_l. apply Rinv_lt_contravar; [lra | assumption]. }
  split; [exact Hne |].
  exact (proj2 (run_mvo_allocation_bound d fr rf ns rt r H) Hne).
Qed.

Lemma equal_sampler_simplex (n k : nat) :
  (1 <= n)%nat -> simplex n (equal_sampler n k).
Proof.
  intros Hn. unfold equal_sampler.
  assert (Hpos : 0 < INR n) by (apply lt_0_INR; lia).
  repeat split.
  - apply repeat_length.
  - apply Forall_forall. intros x Hx. apply repeat_spec in Hx. subst x.
    left. apply Rdiv_lt_0_compat; lra.
  - rewrite sum_arr_repeat. field. lra.
Qed.

Lemma run_mvo_allocation_nonempty_witness :
  exists r,
    run_mvo equal_sampler example_funds (65 / 1000) 1 "Medium" = Returns (MvoOk r)
    /\ allocation r <> [].
Proof.
  destruct (example_funds_run 1 "Medium") as [r Hr].
  exists r. split; [exact Hr |].
  apply (run_mvo_allocation_nonempty equal_sampler example_funds (65 / 1000) 1
           "Medium" r).
  - intros k. apply equal_sampler_simplex. cbn [example_funds length]. lia.
  - cbn [example_funds length]. lia.
  - exact Hr.
Defined.
